(** * Verification of the translation-model base class and the model-zoo façade

    The development embeds two Python classes:

    - [MMEdit] (src/mmedit/edit.py): the static model catalog and the
      resolution of a model name, a version label and explicit overrides into
      the keyword arguments of the inferencer;
    - [BaseTranslationModel]
      (src/mmagic/models/base_models/base_translation_model.py): per-domain
      generators and discriminators kept in [nn.ModuleDict] containers, domain
      queries, [translation], the two forward modes and [init_weights].

    Python exceptions are values of [PyError]; a call either returns or
    raises ([result]).  Python dictionaries are [gmap]s, Python sets are
    [gset]s, and [nn.Module] objects live in a store indexed by object
    identity, so that aliasing between containers is kept. *)

From Stdlib Require Import Ascii String.
From stdpp Require Import gmap strings list fin_maps.

Local Open Scope string_scope.

(** ** Exceptions and results *)

Inductive PyError : Type :=
  | AssertionError (msg : option string)
  | ValueError (msg : string)
  | KeyError (key : option string)
  | AttributeError (name : string)
  | TypeError (msg : string)
  | StaleReference (o : nat)
  | CollaboratorError (msg : string).

Inductive result (A : Type) : Type :=
  | Ok (a : A)
  | Raise (e : PyError).
Arguments Ok {A} a.
Arguments Raise {A} e.

Global Instance result_ret : MRet result := λ A a, Ok a.

Global Instance result_bind : MBind result := λ A B k r,
  match r with
  | Ok a => k a
  | Raise e => Raise e
  end.

Global Instance result_fmap : FMap result := λ A B f r,
  match r with
  | Ok a => Ok (f a)
  | Raise e => Raise e
  end.

(** [assert cond, msg] *)
Definition py_assert (cond : bool) (msg : option string) : result unit :=
  if cond then Ok tt else Raise (AssertionError msg).

Definition is_ok {A} (r : result A) : bool :=
  match r with Ok _ => true | Raise _ => false end.

Definition is_value_error {A} (r : result A) : bool :=
  match r with Raise (ValueError _) => true | _ => false end.

(** ** Strings *)

(** [sub in s] on Python strings. *)
Fixpoint str_in (sub s : string) : bool :=
  String.prefix sub s ||
  match s with
  | EmptyString => false
  | String _ s' => str_in sub s'
  end.

(** [s.startswith(p)] and [s.endswith(p)]. *)
Definition startswith (s p : string) : bool := String.prefix p s.

Definition endswith (s p : string) : bool :=
  String.prefix (String.rev p) (String.rev s).

(** [str(x)] in an f-string, for a value that is a string or [None]. *)
Definition fmt_opt (o : option string) : string :=
  match o with
  | Some s => s
  | None => "None"
  end.

(** [posixpath.join(a, b)] for two components. *)
Definition os_path_join (a b : string) : string :=
  if startswith b "/" then b
  else if bool_decide (a = "") || endswith a "/" then a +:+ b
  else a +:+ "/" +:+ b.

(** ** The model catalog and its resolution (src/mmedit/edit.py) *)

Module MMEdit.

(** One version of a model: [{'config': ..., 'ckpt': ...}]. *)
Record VersionEntry : Type := {
  ver_config : string;
  ver_ckpt : string
}.

(** One model: [{'type': ..., 'version': {label: VersionEntry}}]. *)
Record ModelEntry : Type := {
  model_type : string;
  model_version : gmap string VersionEntry
}.

Definition model_dict_items : list (string * ModelEntry) := [
  ("biggan",
   {| model_type := "conditional";
      model_version := list_to_map [
        ("a", {| ver_config := "biggan/dbnet_resnet18_fpnc_1200e_icdar2015.py";
                 ver_ckpt := "ckpt/conditional/biggan_cifar10_32x32_b25x2_500k_20210728_110906-08b61a44.pth" |});
        ("b", {| ver_config := "biggan/biggan_ajbrock-sn_8xb32-1500kiters_imagenet1k-128x128.py";
                 ver_ckpt := "ckpt/conditional/biggan_imagenet1k_128x128_b32x8_best_fid_iter_1232000_20211111_122548-5315b13d.pth" |})] |});
  ("styleganv1",
   {| model_type := "unconditional";
      model_version := list_to_map [
        ("a", {| ver_config := "styleganv1/styleganv1_ffhq-256x256_8xb4-25Mimgs.py";
                 ver_ckpt := "ckpt/unconditional/styleganv1_ffhq_256_g8_25Mimg_20210407_161748-0094da86.pth" |})] |});
  ("gca",
   {| model_type := "matting";
      model_version := list_to_map [
        ("a", {| ver_config := "gca/gca_r34_4xb10-200k_comp1k.py";
                 ver_ckpt := "ckpt/matting/gca/gca_r34_4x10_200k_comp1k_SAD-33.38_20220615-65595f39.pth" |})] |});
  ("aot_gan",
   {| model_type := "inpainting";
      model_version := list_to_map [
        ("a", {| ver_config := "aot_gan/aot-gan_smpgan_4xb4_places-512x512.py";
                 ver_ckpt := "ckpt/inpainting/AOT-GAN_512x512_4x12_places_20220509-6641441b.pth" |})] |});
  ("pix2pix",
   {| model_type := "translation";
      model_version := list_to_map [
        ("a", {| ver_config := "pix2pix/pix2pix_vanilla-unet-bn_1xb1-80kiters_facades.py";
                 ver_ckpt := "ckpt/translation/pix2pix_vanilla_unet_bn_1x1_80k_facades_20210902_170442-c0958d50.pth" |})] |});
  ("real_esrgan",
   {| model_type := "restoration";
      model_version := list_to_map [
        ("a", {| ver_config := "real_esrgan/realesrnet_c64b23g32_4xb12-lr2e-4-1000k_df2k-ost.py";
                 ver_ckpt := "ckpt/restoration/realesrnet_c64b23g32_12x4_lr2e-4_1000k_df2k_ost_20210816-4ae3b5a4.pth" |})] |});
  ("esrgan",
   {| model_type := "restoration";
      model_version := list_to_map [
        ("a", {| ver_config := "esrgan/esrgan_psnr-x4c64b23g32_1xb16-1000k_div2k.py";
                 ver_ckpt := "ckpt/restoration/esrgan_psnr_x4c64b23g32_1x16_1000k_div2k_20200420-bf5c993c.pth" |})] |});
  ("basicvsr",
   {| model_type := "video_restoration";
      model_version := list_to_map [
        ("a", {| ver_config := "basicvsr/basicvsr_2xb4_vimeo90k-bi.py";
                 ver_ckpt := "" |});
        ("b", {| ver_config := "basicvsr/basicvsr_2xb4_reds4.py";
                 ver_ckpt := "ckpt/video_restoration/basicvsr_reds4_20120409-0e599677.pth" |})] |});
  ("flavr",
   {| model_type := "video_interpolation";
      model_version := list_to_map [
        ("a", {| ver_config := "flavr/flavr_in4out1_8xb4_vimeo90k-septuplet.py";
                 ver_ckpt := "ckpt/video_interpolation/flavr_in4out1_g8b4_vimeo90k_septuplet_20220509-c2468995.pth" |})] |})
].

(** The dictionary literal of [get_model_config]. *)
Definition model_dict : gmap string ModelEntry := list_to_map model_dict_items.

Definition get_model_config (model_name : string) : result ModelEntry :=
  match model_dict !! model_name with
  | None => Raise (ValueError ("Model " +:+ model_name +:+ " is not supported."))
  | Some cfgs => Ok cfgs
  end.

(** [cfgs['version'][model_version]]: an unguarded dictionary access. *)
Definition version_getitem (cfgs : ModelEntry) (version : option string)
  : result VersionEntry :=
  match version ≫= (λ v, model_version cfgs !! v) with
  | Some ve => Ok ve
  | None => Raise (KeyError version)
  end.

(** A [UserWarning] handed to [warnings.warn]. *)
Inductive Warning : Type := UserWarning (msg : string).

(** The default of the [model_version] argument of [MMEdit.__init__]. *)
Definition default_model_version : option string := Some "a".

(** The resolved keyword arguments and the warnings emitted on the way. *)
Definition Resolution : Type := gmap string string * list Warning.

(** [warnings.warn(msg, UserWarning)] *)
Definition warn (msg : string) (ws : list Warning) : list Warning :=
  (ws ++ [UserWarning msg])%list.

(** [kwargs.get(key, None) is not None]; the values are strings. *)
Definition get_is_not_None (kwargs : gmap string string) (key : string) : bool :=
  bool_decide (is_Some (kwargs !! key)).

(** The [if model is not None] block. *)
Definition kwargs_of_model (model version : option string)
  : result (gmap string string) :=
  match model with
  | Some name =>
      cfgs ← get_model_config name;
      let kwargs := <["type" := model_type cfgs]> ∅ in
      ve ← version_getitem cfgs version;
      let kwargs := <["config" := os_path_join "configs/" (ver_config ve)]> kwargs in
      ve ← version_getitem cfgs version;
      let kwargs := <["ckpt" := ver_ckpt ve]> kwargs in
      Ok kwargs
  | None => Ok ∅
  end.

(** The [if config is not None] block. *)
Definition override_config (model config : option string) (st : Resolution)
  : Resolution :=
  match config with
  | Some c =>
      let ws :=
        if get_is_not_None st.1 "config"
        then warn (fmt_opt model +:+ "'s default config is overridden by " +:+ c) st.2
        else st.2 in
      (<["config" := c]> st.1, ws)
  | None => st
  end.

(** The [if ckpt is not None] block. *)
Definition override_ckpt (model ckpt : option string) (st : Resolution)
  : Resolution :=
  match ckpt with
  | Some k =>
      let ws :=
        if get_is_not_None st.1 "ckpt"
        then warn (fmt_opt model +:+ "'s default checkpoint is overridden by " +:+ k) st.2
        else st.2 in
      (<["ckpt" := k]> st.1, ws)
  | None => st
  end.

Definition _get_inferencer_kwargs (model version config ckpt : option string)
  : result Resolution :=
  kwargs ← kwargs_of_model model version;
  Ok (override_ckpt model ckpt (override_config model config (kwargs, []))).

(** The warnings of one call: one per explicit argument that replaces an
    entry set from the named model, in the order config, checkpoint. *)
Definition expected_warnings (model config ckpt : option string) : list Warning :=
  match model with
  | Some name =>
      match config with
      | Some c => [UserWarning (name +:+ "'s default config is overridden by " +:+ c)]
      | None => []
      end ++
      match ckpt with
      | Some k => [UserWarning (name +:+ "'s default checkpoint is overridden by " +:+ k)]
      | None => []
      end
  | None => []
  end%list.

End MMEdit.

(** ** Python's [repr] of strings and lists of strings

    The message of the reachability assertion formats the list of reachable
    domains with [str(list)], which is ['[' + ', '.join(map(repr, l)) + ']'].
    Domain names are taken to be ASCII; bytes from 128 on are kept as they
    are. *)

Definition quote_char : ascii := ascii_of_nat 39.
Definition dquote_char : ascii := ascii_of_nat 34.
Definition backslash_char : ascii := ascii_of_nat 92.

Definition hex_digit (n : nat) : ascii :=
  default "0"%char (list_ascii_of_string "0123456789abcdef" !! n).

Definition repr_char (q c : ascii) : string :=
  let n := nat_of_ascii c in
  if bool_decide (c = backslash_char) then String backslash_char (String backslash_char "")
  else if bool_decide (c = q) then String backslash_char (String q "")
  else if bool_decide (n = 9) then String backslash_char "t"
  else if bool_decide (n = 10) then String backslash_char "n"
  else if bool_decide (n = 13) then String backslash_char "r"
  else if bool_decide (n < 32 ∨ n = 127)
       then String backslash_char
              (String "x" (String (hex_digit (n / 16)) (String (hex_digit (n mod 16)) "")))
  else String c "".

Fixpoint repr_chars (q : ascii) (s : string) : string :=
  match s with
  | EmptyString => EmptyString
  | String c s' => repr_char q c +:+ repr_chars q s'
  end.

Definition py_repr_str (s : string) : string :=
  let q := if str_in (String quote_char "") s && negb (str_in (String dquote_char "") s)
           then dquote_char else quote_char in
  String q (repr_chars q s +:+ String q "").

Fixpoint join_reprs (l : list string) : string :=
  match l with
  | [] => ""
  | [x] => py_repr_str x
  | x :: rest => py_repr_str x +:+ ", " +:+ join_reprs rest
  end.

Definition py_str_list (l : list string) : string :=
  "[" +:+ join_reprs l +:+ "]".

(** ** Ordered dictionaries with string keys ([nn.Module._modules]) *)

Fixpoint alist_get {A} (k : string) (l : list (string * A)) : option A :=
  match l with
  | [] => None
  | (k', v) :: l' => if bool_decide (k' = k) then Some v else alist_get k l'
  end.

Fixpoint alist_set {A} (k : string) (v : A) (l : list (string * A))
  : list (string * A) :=
  match l with
  | [] => [(k, v)]
  | (k', v') :: l' =>
      if bool_decide (k' = k) then (k', v) :: l' else (k', v') :: alist_set k v l'
  end.

(** ** The translation model
    (src/mmagic/models/base_models/base_translation_model.py) *)

Module BaseTranslationModel.

(** The types the deep-learning framework provides. *)
Class Framework : Type := {
  Tensor : Type;
  Kwargs : Type;
  Cfg : Type;
  (** the state of a module besides its registered children and the
      tracking attribute: parameters, buffers, flags *)
  Payload : Type;
  (** the value of [param.data.mean().cpu()] *)
  Mean : Type;
  (** the state of a module right after [nn.Module.__init__] *)
  blank_payload : Payload;
  (** [dict()] *)
  empty_dict : Cfg
}.

(** Object identity of a module. *)
Abbreviation oid := nat (only parsing).

Section Store.
Context {F : Framework}.

(** An [nn.Module] object. *)
Record ModuleObj : Type := {
  (** the attribute [_params_init_info]: a reference to a tracking map, when
      the attribute is set *)
  _params_init_info : option nat;
  (** the registered children, in registration order *)
  _modules : list (string * oid);
  (** [is_model_wrapper(m)]; the wrapped module is the child [module] *)
  is_wrapper : bool;
  payload : Payload
}.

(** An entry of a tracking map. *)
Inductive InfoVal : Type :=
  | InfoStr (s : string)
  | InfoMean (m : Mean).

(** A tracking map [defaultdict(dict)]: parameter identity to a dictionary. *)
Definition InfoMap : Type := gmap nat (gmap string InfoVal).

(** The store: module objects by identity and tracking maps by reference. *)
Record World : Type := {
  heap : list ModuleObj;
  maps : list InfoMap
}.

Definition with_heap (h : list ModuleObj) (w : World) : World :=
  {| heap := h; maps := maps w |}.

Definition set_info (i : option nat) (obj : ModuleObj) : ModuleObj :=
  {| _params_init_info := i; _modules := _modules obj;
     is_wrapper := is_wrapper obj; payload := payload obj |}.

Definition set_modules (ms : list (string * oid)) (obj : ModuleObj) : ModuleObj :=
  {| _params_init_info := _params_init_info obj; _modules := ms;
     is_wrapper := is_wrapper obj; payload := payload obj |}.

(** A module right after [nn.Module.__init__()]; also [nn.ModuleDict()]. *)
Definition new_module : ModuleObj :=
  {| _params_init_info := None; _modules := [];
     is_wrapper := false; payload := blank_payload |}.

Definition get_obj (o : oid) (w : World) : result ModuleObj :=
  match heap w !! o with
  | Some obj => Ok obj
  | None => Raise (StaleReference o)
  end.

Definition update_obj (o : oid) (f : ModuleObj → ModuleObj) (w : World)
  : result World :=
  match heap w !! o with
  | Some _ => Ok (with_heap (alter f o (heap w)) w)
  | None => Raise (StaleReference o)
  end.

(** Creation of an object: its identity is new. *)
Definition alloc (obj : ModuleObj) (w : World) : oid * World :=
  (length (heap w), with_heap (heap w ++ [obj]) w).

(** A module tree as a collaborator hands it over: the root and the other
    objects, whose child references count from the root as 0. *)
Definition Blueprint : Type := ModuleObj * list ModuleObj.

Definition relocate (base : nat) (obj : ModuleObj) : ModuleObj :=
  set_modules (prod_map id (λ c, base + c) <$> _modules obj) obj.

Definition instantiate (bp : Blueprint) (w : World) : oid * World :=
  let base := length (heap w) in
  (base, with_heap (heap w ++ (relocate base <$> bp.1 :: bp.2)) w).

(** [o.name] for a registered child. *)
Definition getattr_module (o : oid) (name : string) (w : World) : result oid :=
  obj ← get_obj o w;
  match alist_get name (_modules obj) with
  | Some c => Ok c
  | None => Raise (AttributeError name)
  end.

(** [o.name = child] for a module value: the child is registered. *)
Definition setattr_module (o : oid) (name : string) (child : oid) (w : World)
  : result World :=
  update_obj o (λ obj, set_modules (alist_set name child (_modules obj)) obj) w.

(** [container[key]] on an [nn.ModuleDict]. *)
Definition ModuleDict_getitem (container : oid) (key : string) (w : World)
  : result oid :=
  obj ← get_obj container w;
  match alist_get key (_modules obj) with
  | Some c => Ok c
  | None => Raise (KeyError (Some key))
  end.

(** [hasattr(o, '_params_init_info')] *)
Definition hasattr_info (o : oid) (h : list ModuleObj) : bool :=
  match h !! o with
  | Some obj => bool_decide (is_Some (_params_init_info obj))
  | None => false
  end.

(** [del o._params_init_info] *)
Definition delattr_info (o : oid) (h : list ModuleObj) : list ModuleObj :=
  alter (set_info None) o h.

(** [o._params_init_info = info] *)
Definition setattr_info (o : oid) (info : nat) (w : World) : result World :=
  update_obj o (set_info (Some info)) w.

(** [o._params_init_info] *)
Definition getattr_info (o : oid) (w : World) : result nat :=
  obj ← get_obj o w;
  match _params_init_info obj with
  | Some i => Ok i
  | None => Raise (AttributeError "_params_init_info")
  end.

(** [nn.Module.modules()]: the module itself and the modules below it,
    depth first in registration order, each object once (the traversal
    keeps a memo of the objects it has yielded). *)
Fixpoint modules_walk (fuel : nat) (h : list ModuleObj) (todo memo : list oid)
  : list oid :=
  match fuel with
  | 0 => []
  | S fuel =>
      match todo with
      | [] => []
      | o :: todo =>
          if bool_decide (o ∈ memo) then modules_walk fuel h todo memo
          else
            match h !! o with
            | None => modules_walk fuel h todo memo
            | Some obj =>
                o :: modules_walk fuel h ((_modules obj).*2 ++ todo) (o :: memo)
            end
      end
  end.

(** The children registered in the objects of [h] that are not in [memo]:
    every step of the traversal takes one unit of it or one element of the
    work list. *)
Fixpoint pending (memo : list oid) (base : nat) (h : list ModuleObj) : nat :=
  match h with
  | [] => 0
  | obj :: h' =>
      (if bool_decide (base ∈ memo) then 0 else length (_modules obj))
      + pending memo (S base) h'
  end.

Definition modules (h : list ModuleObj) (root : oid) : list oid :=
  modules_walk (S (pending [] 0 h)) h [root] [].

(** [o] is the module [root] or a module below it. *)
Inductive submodule_of (h : list ModuleObj) (root : oid) : oid → Prop :=
  | submodule_self : submodule_of h root root
  | submodule_child (p c : oid) (obj : ModuleObj) (name : string) :
      submodule_of h root p →
      h !! p = Some obj →
      (name, c) ∈ _modules obj →
      submodule_of h root c.

(** The state of the module tree without the tracking attribute. *)
Definition erase_info (w : World) : list ModuleObj :=
  set_info None <$> heap w.

End Store.

(** What the model calls outside of its own code. *)
Class Collaborators {F : Framework} : Type := {
  (** [MODELS.build(cfg)]: a new module tree *)
  MODELS_build : Cfg → result Blueprint;
  (** whether [nn.Module.add_module] accepts the name on an [nn.ModuleDict] *)
  module_name_ok : string → bool;
  (** [module(image, **kwargs)] *)
  module_call : oid → Tensor → Kwargs → World → result (Tensor * World);
  (** [module.init_weights()] *)
  module_init_weights : oid → World → result World;
  (** [BaseModule._dump_init_info()] *)
  dump_init_info : oid → World → result World;
  (** [module.named_parameters()]: names and identities of the parameters *)
  named_parameters : oid → World → list (string * nat);
  (** [param.data.mean().cpu()] *)
  param_mean : nat → World → Mean;
  (** [tensor.cpu()] *)
  tensor_cpu : Tensor → Tensor
}.

(** A [for] loop over a list whose body may raise. *)
Fixpoint for_each {A S} (body : A → S → result S) (l : list A) (s : S)
  : result S :=
  match l with
  | [] => Ok s
  | x :: l' => s' ← body x s; for_each body l' s'
  end.

Section Methods.
Context {F : Framework} {C : Collaborators}.

(** The plain attributes of a model; [generators] and [discriminators] are
    registered children of the object [self_id]. *)
Record Model : Type := {
  self_id : oid;
  class_name : string;
  _default_domain : string;
  _reachable_domains : list string;
  _related_domains : list string;
  discriminator_steps : Z;
  disc_init_steps : Z;
  real_img_key : string;
  _gen_cfg : Cfg;
  _disc_cfg : option Cfg;
  loss_config : Cfg
}.

(** [container[key] = module] on an [nn.ModuleDict]. *)
Definition ModuleDict_setitem (container : oid) (key : string) (module : oid)
    (w : World) : result World :=
  if module_name_ok key
  then update_obj container
         (λ obj, set_modules (alist_set key module (_modules obj)) obj) w
  else Raise (KeyError (Some key)).

(** [o.name] for an attribute that holds a module or [None]. *)
Definition getattr_optional (o : oid) (name : string) (w : World)
  : result (option oid) :=
  obj ← get_obj o w; Ok (alist_get name (_modules obj)).

(** [BaseModel.__init__(data_preprocessor)]: the module state is set up and
    the preprocessor, a module, is registered. *)
Definition BaseModel___init__ (self data_preprocessor : oid) (w : World)
  : result World :=
  w ← update_obj self (λ _, new_module) w;
  setattr_module self "data_preprocessor" data_preprocessor w.

(** [for domain in self._reachable_domains:
       self.<attr>[domain] = MODELS.build(cfg)] *)
Definition build_domain (self : oid) (attr : string) (cfg : Cfg)
    (domain : string) (w : World) : result World :=
  bp ← MODELS_build cfg;
  let '(built, w) := instantiate bp w in
  container ← getattr_module self attr w;
  ModuleDict_setitem container domain built w.

Definition __init__ (self : oid) (cls : string)
    (generator : Cfg) (discriminator : option Cfg)
    (default_domain : string) (reachable_domains related_domains : list string)
    (data_preprocessor : oid)
    (discriminator_steps disc_init_steps : Z) (real_img_key : string)
    (loss_config : option Cfg) (w : World) : result (Model * World) :=
  w ← BaseModel___init__ self data_preprocessor w;
  _ ← py_assert (bool_decide (default_domain ∈ reachable_domains)) None;
  _ ← py_assert
        (bool_decide ((list_to_set reachable_domains : gset string)
                        ⊆ list_to_set related_domains)) None;
  (* build domain generators *)
  let '(gens, w) := alloc new_module w in
  w ← setattr_module self "generators" gens w;
  w ← for_each (build_domain self "generators" generator) reachable_domains w;
  (* build domain discriminators *)
  w ← match discriminator with
      | Some disc_cfg =>
          let '(discs, w) := alloc new_module w in
          w ← setattr_module self "discriminators" discs w;
          for_each (build_domain self "discriminators" disc_cfg)
            reachable_domains w
      | None => Ok w
      end;
  Ok ({| self_id := self;
         class_name := cls;
         _default_domain := default_domain;
         _reachable_domains := reachable_domains;
         _related_domains := related_domains;
         discriminator_steps := discriminator_steps;
         disc_init_steps := disc_init_steps;
         real_img_key := real_img_key;
         _gen_cfg := generator;
         _disc_cfg := discriminator;
         loss_config := default empty_dict loss_config |}, w).

(** The call of the class: a new object, then [__init__] on it. *)
Definition construct (cls : string)
    (generator : Cfg) (discriminator : option Cfg)
    (default_domain : string) (reachable_domains related_domains : list string)
    (data_preprocessor : oid)
    (discriminator_steps disc_init_steps : Z) (real_img_key : string)
    (loss_config : option Cfg) (w : World) : result (Model * World) :=
  let '(self, w) := alloc new_module w in
  __init__ self cls generator discriminator default_domain reachable_domains
    related_domains data_preprocessor discriminator_steps disc_init_steps
    real_img_key loss_config w.

(** [get_module]: the collection inside a model wrapper, or the collection
    itself; [None] is not a wrapper. *)
Definition get_module (module : option oid) (w : World) : result (option oid) :=
  match module with
  | None => Ok None
  | Some o =>
      obj ← get_obj o w;
      if is_wrapper obj then Some <$> getattr_module o "module" w
      else Ok (Some o)
  end.

(** [collection[key]] where the collection may be [None]. *)
Definition subscript (collection : option oid) (key : string) (w : World)
  : result oid :=
  match collection with
  | Some c => ModuleDict_getitem c key w
  | None => Raise (TypeError "'NoneType' object is not subscriptable")
  end.

Definition is_domain_reachable (m : Model) (domain : string) : bool :=
  bool_decide (domain ∈ _reachable_domains m).

Definition get_other_domains (m : Model) (domain : string) : list string :=
  elements ((list_to_set (_related_domains m) : gset string)
              ∖ list_to_set [domain]).

(** The message of the reachability assertions; the line continuation of
    the source leaves twelve spaces in front of the list. *)
Definition not_reachable_msg (m : Model) (domain : string) : string :=
  domain +:+ " domain is not reachable, available domain list is"
         +:+ "            " +:+ py_str_list (_reachable_domains m).

Definition _get_target_generator (m : Model) (domain : string) (w : World)
  : result oid :=
  _ ← py_assert (is_domain_reachable m domain)
        (Some (not_reachable_msg m domain));
  generators ← getattr_module (self_id m) "generators" w;
  collection ← get_module (Some generators) w;
  subscript collection domain w.

Definition _get_target_discriminator (m : Model) (domain : string) (w : World)
  : result oid :=
  _ ← py_assert (is_domain_reachable m domain)
        (Some (not_reachable_msg m domain));
  discriminators ← getattr_optional (self_id m) "discriminators" w;
  collection ← get_module discriminators w;
  subscript collection domain w.

Definition translation (m : Model) (image : Tensor)
    (target_domain : option string) (kwargs : Kwargs) (w : World)
  : result (Tensor * World) :=
  let target_domain := default (_default_domain m) target_domain in
  _model ← _get_target_generator m target_domain w;
  module_call _model image kwargs w.

(** [dict(source=..., target=...)] *)
Record ForwardResults : Type := {
  source : Tensor;
  target : Tensor
}.

Definition forward_train (m : Model) (img : Tensor)
    (target_domain : option string) (kwargs : Kwargs) (w : World)
  : result (ForwardResults * World) :=
  '(target, w) ← translation m img target_domain kwargs w;
  Ok ({| source := img; target := target |}, w).

Definition forward_test (m : Model) (img : Tensor)
    (target_domain : option string) (kwargs : Kwargs) (w : World)
  : result (ForwardResults * World) :=
  '(target, w) ← translation m img target_domain kwargs w;
  Ok ({| source := tensor_cpu img; target := tensor_cpu target |}, w).

Definition forward (m : Model) (img : Tensor) (test_mode : bool)
    (target_domain : option string) (kwargs : Kwargs) (w : World)
  : result (ForwardResults * World) :=
  if negb test_mode then forward_train m img target_domain kwargs w
  else forward_test m img target_domain kwargs w.

(** What [forward_test] does to the results of [forward_train]. *)
Definition to_host (r : ForwardResults) : ForwardResults :=
  {| source := tensor_cpu (source r); target := tensor_cpu (target r) |}.

(** [self._params_init_info = defaultdict(dict)] *)
Definition new_tracking_map (self : oid) (w : World) : result World :=
  let info := length (maps w) in
  setattr_info self info
    {| heap := heap w; maps := maps w ++ [(∅ : InfoMap)] |}.

(** The body of the loop over [self.named_parameters()]. *)
Definition record_param (m : Model) (named_param : string * nat) (w : World)
  : result World :=
  let param := named_param.2 in
  info ← getattr_info (self_id m) w;
  let note :=
    "The value is the same before and after calling `init_weights` of "
      +:+ class_name m +:+ " " in
  let mean := param_mean param w in
  Ok {| heap := heap w;
        maps := alter (λ tracked : InfoMap,
                  <[param := <["tmp_mean_value" := InfoMean mean]>
                               (<["init_info" := InfoStr note]>
                                  (default ∅ (tracked !! param)))]> tracked)
                  info (maps w) |}.

(** [collection.module[domain]] for a wrapped collection,
    [collection[domain]] otherwise. *)
Definition domain_module (collection : oid) (domain : string) (w : World)
  : result oid :=
  obj ← get_obj collection w;
  if is_wrapper obj
  then inner ← getattr_module collection "module" w;
       ModuleDict_getitem inner domain w
  else ModuleDict_getitem collection domain w.

(** [module._params_init_info = self._params_init_info;
     module.init_weights()] *)
Definition init_module (m : Model) (module : oid) (w : World) : result World :=
  info ← getattr_info (self_id m) w;
  w ← setattr_info module info w;
  module_init_weights module w.

(** The body of the loop over the reachable domains. *)
Definition init_domain (m : Model) (domain : string) (w : World) : result World :=
  generators ← getattr_module (self_id m) "generators" w;
  gen ← domain_module generators domain w;
  w ← init_module m gen w;
  discriminators ← getattr_optional (self_id m) "discriminators" w;
  match discriminators with
  | Some discriminators =>
      disc ← domain_module discriminators domain w;
      init_module m disc w
  | None => Ok w
  end.

(** [for m in self.modules():
       if hasattr(m, '_params_init_info'): del m._params_init_info].
    Deleting the attribute leaves the registered children as they are, so
    the modules the traversal yields are those of the heap at its start. *)
Definition drop_tracking_maps (self : oid) (w : World) : World :=
  with_heap
    (foldl (λ h o, if hasattr_info o h then delattr_info o h else h)
       (heap w) (modules (heap w) self)) w.

Definition init_weights (m : Model) (w : World) : result World :=
  w ← new_tracking_map (self_id m) w;
  w ← for_each (record_param m) (named_parameters (self_id m) w) w;
  w ← for_each (init_domain m) (_reachable_domains m) w;
  w ← dump_init_info (self_id m) w;
  Ok (drop_tracking_maps (self_id m) w).

(** The generators of the model are in place: the model has a child
    [generators], a container that is not wrapped and has a module for
    every reachable domain. *)
Definition generators_ready (m : Model) (w : World) : Prop :=
  ∃ sobj gens gobj,
    heap w !! self_id m = Some sobj ∧
    alist_get "generators" (_modules sobj) = Some gens ∧
    heap w !! gens = Some gobj ∧
    is_wrapper gobj = false ∧
    ∀ d, d ∈ _reachable_domains m → is_Some (alist_get d (_modules gobj)).

End Methods.

(** *** A small instance of the framework, used to run the model

    Tensors are lists of numbers; a module called on a tensor puts its own
    identity in front.  A built module has one child [conv].  Initialising
    a module counts in its payload and hands the tracking map on to its
    children. *)
Module Toy.

#[export] Instance toy_framework : Framework := {|
  Tensor := list nat;
  Kwargs := unit;
  Cfg := nat;
  Payload := nat;
  Mean := nat;
  blank_payload := 0;
  empty_dict := 0
|}.

Definition toy_blueprint (cfg : nat) : Blueprint :=
  ({| _params_init_info := None; _modules := [("conv", 1)];
      is_wrapper := false; payload := cfg |},
   [ {| _params_init_info := None; _modules := [];
        is_wrapper := false; payload := cfg |} ]).

Definition bump (obj : ModuleObj) : ModuleObj :=
  {| _params_init_info := _params_init_info obj; _modules := _modules obj;
     is_wrapper := is_wrapper obj; payload := S (payload obj) |}.

Definition toy_init_weights (o : oid) (w : World) : result World :=
  obj ← get_obj o w;
  w ← update_obj o bump w;
  Ok (with_heap
        (foldl (λ h c, alter (set_info (_params_init_info obj)) c h)
           (heap w) (_modules obj).*2) w).

#[export] Instance toy_collaborators : Collaborators := {|
  MODELS_build cfg := Ok (toy_blueprint cfg);
  module_name_ok name := negb (bool_decide (name = "")) && negb (str_in "." name);
  module_call o image _ w := Ok (o :: image, w);
  module_init_weights := toy_init_weights;
  dump_init_info _ w := Ok w;
  named_parameters _ _ := [("weight", 0)];
  param_mean _ _ := 0;
  tensor_cpu image := 0 :: image
|}.

(** A store that holds one module, the data preprocessor. *)
Definition toy_world : World := {| heap := [new_module]; maps := [] |}.

(** [BaseTranslationModel(generator=7, discriminator=8, default_domain='photo',
      reachable_domains=['photo', 'sketch'],
      related_domains=['photo', 'sketch', 'mask'], ...)] *)
Definition toy_construct : result (Model * World) :=
  construct "Pix2Pix" 7 (Some 8) "photo" ["photo"; "sketch"]
    ["photo"; "sketch"; "mask"] 0 1 0 "real_img" None toy_world.

Definition toy_model : Model := {|
  self_id := 1;
  class_name := "Pix2Pix";
  _default_domain := "photo";
  _reachable_domains := ["photo"; "sketch"];
  _related_domains := ["photo"; "sketch"; "mask"];
  discriminator_steps := 1;
  disc_init_steps := 0;
  real_img_key := "real_img";
  _gen_cfg := 7;
  _disc_cfg := Some 8;
  loss_config := 0
|}.

(** The store after the construction. *)
Definition toy_built : World :=
  Eval vm_compute in
    match toy_construct with
    | Ok (_, w) => w
    | Raise _ => toy_world
    end.

(** The store after [init_weights] on the constructed model. *)
Definition toy_initialised : World :=
  Eval vm_compute in
    match init_weights toy_model toy_built with
    | Ok w => w
    | Raise _ => toy_world
    end.

Definition toy_image : Tensor := [5].

End Toy.

End BaseTranslationModel.

(* ================================================================== *)
(** * Properties of the catalog resolution *)

(** ** Substrings *)

Lemma prefix_app (s t : string) : String.prefix s (s +:+ t) = true.
Proof.
  induction s as [|c s IH]; simpl.
  - by destruct t.
  - destruct (Ascii.ascii_dec c c); [exact IH | congruence].
Qed.

Lemma str_in_app_r (sub pre s : string) :
  str_in sub s = true → str_in sub (pre +:+ s) = true.
Proof.
  intros H. induction pre as [|c pre IH]; simpl; [done|].
  rewrite IH. apply orb_true_r.
Qed.

Lemma str_in_intro (sub pre post : string) :
  str_in sub (pre +:+ sub +:+ post) = true.
Proof.
  apply str_in_app_r. destruct sub as [|c sub]; simpl.
  - destruct post; reflexivity.
  - destruct (Ascii.ascii_dec c c); [|congruence].
    by rewrite prefix_app.
Qed.


Section MMEdit_facts.
Import MMEdit.

Lemma model_dict_lookup_items (name : string) (cfgs : ModelEntry) :
  model_dict !! name = Some cfgs → (name, cfgs) ∈ model_dict_items.
Proof. apply elem_of_list_to_map_2. Qed.

Lemma kwargs_of_model_named (name : string) (version : option string)
    (kw0 : gmap string string) :
  kwargs_of_model (Some name) version = Ok kw0 →
  ∃ cfgs ve,
    model_dict !! name = Some cfgs ∧
    version ≫= (λ v, model_version cfgs !! v) = Some ve ∧
    kw0 = <["ckpt" := ver_ckpt ve]>
            (<["config" := os_path_join "configs/" (ver_config ve)]>
               (<["type" := model_type cfgs]> ∅)).
Proof.
  unfold kwargs_of_model, get_model_config, version_getitem.
  destruct (model_dict !! name) as [cfgs|] eqn:Hname; simpl; [|done].
  destruct (version ≫= _) as [ve|] eqn:Hver; simpl; [|done].
  intros [= <-]. by exists cfgs, ve.
Qed.

Lemma kwargs_of_model_fields (name : string) (version : option string)
    (kw0 : gmap string string) :
  kwargs_of_model (Some name) version = Ok kw0 →
  is_Some (kw0 !! "type") ∧ is_Some (kw0 !! "config") ∧ is_Some (kw0 !! "ckpt").
Proof.
  intros (cfgs & ve & _ & _ & ->)%kwargs_of_model_named.
  repeat split; eexists; by simplify_map_eq.
Qed.

(** The call on top of a successful lookup of the named model, if any. *)
Lemma resolve_after_lookup (model version config ckpt : option string)
    (kw0 : gmap string string) :
  kwargs_of_model model version = Ok kw0 →
  ∃ kw,
    _get_inferencer_kwargs model version config ckpt
      = Ok (kw, expected_warnings model config ckpt) ∧
    (∀ c, config = Some c → kw !! "config" = Some c) ∧
    (∀ k, ckpt = Some k → kw !! "ckpt" = Some k) ∧
    (∀ f v, kw !! f = Some v →
       (is_Some model ∧ kw0 !! f = Some v) ∨
       (f = "config" ∧ config = Some v) ∨
       (f = "ckpt" ∧ ckpt = Some v)).
Proof.
  intros Hkw0.
  unfold _get_inferencer_kwargs. rewrite Hkw0. simpl.
  destruct model as [name|].
  - destruct (kwargs_of_model_fields _ _ _ Hkw0) as (_ & Hcfg & Hck).
    assert (get_is_not_None kw0 "config" = true) as Ecfg
      by by apply bool_decide_eq_true_2.
    assert (get_is_not_None kw0 "ckpt" = true) as Eck
      by by apply bool_decide_eq_true_2.
    assert (∀ c, get_is_not_None (<["config" := c]> kw0) "ckpt" = true) as Eck'.
    { intros c. apply bool_decide_eq_true_2.
      rewrite lookup_insert_ne; [done | discriminate]. }
    destruct config as [c|], ckpt as [k|];
      unfold override_ckpt, override_config, warn; simpl;
      rewrite ?Ecfg, ?Eck, ?Eck'; simpl;
      (eexists; split; [reflexivity|]);
      (split; [intros ? [= <-] || done; by simplify_map_eq|]);
      (split; [intros ? [= <-] || done; by simplify_map_eq|]);
      intros f v Hf.
    + destruct (decide (f = "ckpt")) as [->|]; [simplify_map_eq; by auto|].
      destruct (decide (f = "config")) as [->|]; simplify_map_eq; by eauto.
    + destruct (decide (f = "config")) as [->|]; simplify_map_eq; by eauto.
    + destruct (decide (f = "ckpt")) as [->|]; simplify_map_eq; by eauto.
    + by eauto.
  - injection Hkw0 as <-.
    destruct config as [c|], ckpt as [k|];
      unfold override_ckpt, override_config, get_is_not_None, warn; simpl;
      (eexists; split; [reflexivity|]);
      (split; [intros ? [= <-] || done; by simplify_map_eq|]);
      (split; [intros ? [= <-] || done; by simplify_map_eq|]);
      intros f v Hf.
    + destruct (decide (f = "ckpt")) as [->|]; [simplify_map_eq; by auto|].
      destruct (decide (f = "config")) as [->|]; simplify_map_eq; by eauto.
    + destruct (decide (f = "config")) as [->|]; simplify_map_eq; by eauto.
    + destruct (decide (f = "ckpt")) as [->|]; simplify_map_eq; by eauto.
    + by simplify_map_eq.
Qed.

(** C3. Whenever the lookup of the named model (if any) succeeds, the call
    returns (warnings do not abort it); an explicit config or checkpoint is
    the value of its field in the result; one [UserWarning] naming the model
    and the override is emitted for each explicit argument that replaces a
    value resolved from a named model, and none otherwise; every field of the
    result was set by the lookup or by an override.  With no model name and
    both explicit arguments the result is exactly the two fields [config]
    and [ckpt], without [type] and without warning. *)
Theorem explicit_overrides :
  (∀ (model version config ckpt : option string) (kw0 : gmap string string),
     kwargs_of_model model version = Ok kw0 →
     ∃ kw,
       _get_inferencer_kwargs model version config ckpt
         = Ok (kw, expected_warnings model config ckpt) ∧
       (∀ c, config = Some c → kw !! "config" = Some c) ∧
       (∀ k, ckpt = Some k → kw !! "ckpt" = Some k) ∧
       (∀ f v, kw !! f = Some v →
          (is_Some model ∧ kw0 !! f = Some v) ∨
          (f = "config" ∧ config = Some v) ∨
          (f = "ckpt" ∧ ckpt = Some v))) ∧
  (∀ (version : option string) (c k : string),
     _get_inferencer_kwargs None version (Some c) (Some k)
       = Ok (<["ckpt" := k]> (<["config" := c]> ∅), []) ∧
     dom (<["ckpt" := k]> (<["config" := c]> (∅ : gmap string string)))
       = ({["config"; "ckpt"]} : gset string)).
Proof.
  split.
  - intros model version config ckpt kw0. apply resolve_after_lookup.
  - intros version c k. split; [reflexivity|].
    rewrite !dom_insert_L, dom_empty_L. set_solver.
Qed.

(** Witness of C3: pix2pix with an explicit config. *)
Lemma explicit_overrides_witness :
  ∃ kw,
    _get_inferencer_kwargs (Some "pix2pix") default_model_version
        (Some "custom.py") None
      = Ok (kw, [UserWarning "pix2pix's default config is overridden by custom.py"]) ∧
    kw !! "config" = Some "custom.py".
Proof.
  destruct (proj1 explicit_overrides (Some "pix2pix") default_model_version
              (Some "custom.py") None
              (<["ckpt" := "ckpt/translation/pix2pix_vanilla_unet_bn_1x1_80k_facades_20210902_170442-c0958d50.pth"]>
                 (<["config" := "configs/pix2pix/pix2pix_vanilla-unet-bn_1xb1-80kiters_facades.py"]>
                    (<["type" := "translation"]> ∅))))
    as (kw & Hcall & Hcfg & _).
  - vm_compute. reflexivity.
  - exists kw. split; [exact Hcall | by apply Hcfg].
Defined.

(** C4. A name that is not a key of the catalog makes [get_model_config],
    and with it the resolution, raise [ValueError] with the message
    "Model <name> is not supported.", which contains the name; for a name
    that is a key neither of them raises a [ValueError]. *)
Theorem unsupported_model :
  ∀ (name : string) (version config ckpt : option string),
    (model_dict !! name = None →
       get_model_config name
         = Raise (ValueError ("Model " +:+ name +:+ " is not supported.")) ∧
       _get_inferencer_kwargs (Some name) version config ckpt
         = Raise (ValueError ("Model " +:+ name +:+ " is not supported.")) ∧
       str_in name ("Model " +:+ name +:+ " is not supported.") = true) ∧
    (is_Some (model_dict !! name) →
       is_value_error (get_model_config name) = false ∧
       is_value_error (_get_inferencer_kwargs (Some name) version config ckpt)
         = false).
Proof.
  intros name version config ckpt. split.
  - intros Hnone. split; [|split].
    + unfold get_model_config. by rewrite Hnone.
    + unfold _get_inferencer_kwargs, kwargs_of_model, get_model_config.
      by rewrite Hnone.
    + apply (str_in_intro name "Model " " is not supported.").
  - intros [cfgs Hsome]. split.
    + unfold get_model_config. by rewrite Hsome.
    + unfold _get_inferencer_kwargs, kwargs_of_model, get_model_config,
        version_getitem.
      rewrite Hsome. simpl.
      by destruct (version ≫= _).
Qed.

(** Witness of C4: [nonexistent_model] is not in the catalog, [pix2pix]
    is. *)
Lemma unsupported_model_witness :
  _get_inferencer_kwargs (Some "nonexistent_model") default_model_version None None
    = Raise (ValueError "Model nonexistent_model is not supported.") ∧
  is_value_error
    (_get_inferencer_kwargs (Some "pix2pix") default_model_version None None)
    = false.
Proof.
  split.
  - apply (proj1 (unsupported_model "nonexistent_model" default_model_version
                    None None)).
    vm_compute. reflexivity.
  - apply (proj2 (unsupported_model "pix2pix" default_model_version None None)).
    vm_compute. eexists. reflexivity.
Defined.

(** C7. With the default version, [pix2pix] resolves to exactly three
    fields: type "translation", a config path ending in
    pix2pix_vanilla-unet-bn_1xb1-80kiters_facades.py and a checkpoint path
    ending in facades_20210902_170442-c0958d50.pth; no warning is emitted. *)
Theorem resolve_pix2pix :
  ∃ config ckpt : string,
    _get_inferencer_kwargs (Some "pix2pix") default_model_version None None
      = Ok (<["ckpt" := ckpt]> (<["config" := config]>
               (<["type" := "translation"]> ∅)), []) ∧
    endswith config "pix2pix_vanilla-unet-bn_1xb1-80kiters_facades.py" = true ∧
    endswith ckpt "facades_20210902_170442-c0958d50.pth" = true ∧
    config = "configs/pix2pix/"
               +:+ "pix2pix_vanilla-unet-bn_1xb1-80kiters_facades.py" ∧
    ckpt = "ckpt/translation/pix2pix_vanilla_unet_bn_1x1_80k_"
             +:+ "facades_20210902_170442-c0958d50.pth".
Proof.
  exists "configs/pix2pix/pix2pix_vanilla-unet-bn_1xb1-80kiters_facades.py",
    "ckpt/translation/pix2pix_vanilla_unet_bn_1x1_80k_facades_20210902_170442-c0958d50.pth".
  repeat split; vm_compute; reflexivity.
Qed.

(** Case analysis over the entries of the catalog and of a version table. *)
Ltac catalog_cases H :=
  apply model_dict_lookup_items in H; unfold model_dict_items in H;
  repeat (apply elem_of_cons in H as [H|H]);
  [ injection H as -> -> .. | by apply elem_of_nil in H ].

Ltac version_cases H :=
  cbn in H;
  repeat (apply lookup_insert_Some in H as [[<- <-]|[_ H]]);
  [ .. | by rewrite lookup_empty in H ].

Lemma catalog_config_relative (name v : string) (cfgs : ModelEntry)
    (ve : VersionEntry) :
  model_dict !! name = Some cfgs →
  model_version cfgs !! v = Some ve →
  startswith (ver_config ve) "/" = false.
Proof.
  intros Hname Hv. catalog_cases Hname; version_cases Hv; reflexivity.
Qed.

Lemma os_path_join_configs (rel : string) :
  startswith rel "/" = false →
  os_path_join "configs/" rel = "configs/" +:+ rel.
Proof. unfold os_path_join. by intros ->. Qed.

Lemma resolve_named (name v : string) (cfgs : ModelEntry) (ve : VersionEntry) :
  model_dict !! name = Some cfgs →
  model_version cfgs !! v = Some ve →
  kwargs_of_model (Some name) (Some v)
    = Ok (<["ckpt" := ver_ckpt ve]>
            (<["config" := os_path_join "configs/" (ver_config ve)]>
               (<["type" := model_type cfgs]> ∅))).
Proof.
  intros Hname Hv.
  unfold kwargs_of_model, get_model_config, version_getitem.
  rewrite Hname. simpl. by rewrite Hv.
Qed.

(** C9. A config set from a catalog entry is ['configs/'] path-joined with
    the relative path of the catalog (for every entry of the catalog this is
    the path with [configs/] put in front), while the checkpoint of the entry
    and an explicit config or checkpoint are returned as they are. *)
Theorem config_prefix_asymmetry :
  ∀ (name v : string) (cfgs : ModelEntry) (ve : VersionEntry),
    model_dict !! name = Some cfgs →
    model_version cfgs !! v = Some ve →
    (∃ kw,
       _get_inferencer_kwargs (Some name) (Some v) None None = Ok (kw, []) ∧
       kw !! "config" = Some (os_path_join "configs/" (ver_config ve)) ∧
       os_path_join "configs/" (ver_config ve) = "configs/" +:+ ver_config ve ∧
       kw !! "ckpt" = Some (ver_ckpt ve)) ∧
    (∀ c k : string,
       ∃ kw ws,
         _get_inferencer_kwargs (Some name) (Some v) (Some c) (Some k)
           = Ok (kw, ws) ∧
         kw !! "config" = Some c ∧ kw !! "ckpt" = Some k).
Proof.
  intros name v cfgs ve Hname Hv.
  pose proof (resolve_named _ _ _ _ Hname Hv) as Hkw.
  split.
  - eexists. split; [|split; [|split]].
    + unfold _get_inferencer_kwargs. rewrite Hkw. reflexivity.
    + by simplify_map_eq.
    + apply os_path_join_configs. by eapply catalog_config_relative.
    + by simplify_map_eq.
  - intros c k.
    destruct (resolve_after_lookup (Some name) (Some v) (Some c) (Some k)
                _ Hkw) as (kw & Hcall & Hc & Hk & _).
    exists kw, (expected_warnings (Some name) (Some c) (Some k)).
    split; [exact Hcall|]. split; [by apply Hc | by apply Hk].
Qed.

(** Witness of C9: version [b] of [basicvsr]. *)
Lemma config_prefix_asymmetry_witness :
  ∃ kw,
    _get_inferencer_kwargs (Some "basicvsr") (Some "b") None None = Ok (kw, []) ∧
    kw !! "config" = Some "configs/basicvsr/basicvsr_2xb4_reds4.py".
Proof.
  destruct (config_prefix_asymmetry "basicvsr" "b"
              {| model_type := "video_restoration";
                 model_version := list_to_map [
                   ("a", {| ver_config := "basicvsr/basicvsr_2xb4_vimeo90k-bi.py";
                            ver_ckpt := "" |});
                   ("b", {| ver_config := "basicvsr/basicvsr_2xb4_reds4.py";
                            ver_ckpt := "ckpt/video_restoration/basicvsr_reds4_20120409-0e599677.pth" |})] |}
              {| ver_config := "basicvsr/basicvsr_2xb4_reds4.py";
                 ver_ckpt := "ckpt/video_restoration/basicvsr_reds4_20120409-0e599677.pth" |})
    as [(kw & Hcall & Hcfg & _) _].
  - vm_compute. reflexivity.
  - vm_compute. reflexivity.
  - exists kw. split; [exact Hcall | exact Hcfg].
Defined.

(** C10. Every entry of the catalog has the version label [a]; so for a
    supported model the resolution with the default version returns, with
    the three fields [type], [config] and [ckpt] and no [KeyError].  The
    [ckpt] of [basicvsr] at version [a] is present and is the empty string. *)
Theorem default_version_present :
  (∀ (name : string) (cfgs : ModelEntry),
     model_dict !! name = Some cfgs →
     is_Some (model_version cfgs !! "a") ∧
     ∃ kw,
       _get_inferencer_kwargs (Some name) default_model_version None None
         = Ok (kw, []) ∧
       kw !! "type" = Some (model_type cfgs) ∧
       is_Some (kw !! "config") ∧ is_Some (kw !! "ckpt")) ∧
  (∃ kw,
     _get_inferencer_kwargs (Some "basicvsr") default_model_version None None
       = Ok (kw, []) ∧
     kw !! "ckpt" = Some "").
Proof.
  split.
  - intros name cfgs Hname.
    assert (is_Some (model_version cfgs !! "a")) as [ve Hve].
    { clear -Hname. catalog_cases Hname; vm_compute; eexists; reflexivity. }
    split; [by exists ve|].
    eexists. split; [|split; [|split]].
    + unfold _get_inferencer_kwargs, default_model_version.
      rewrite (resolve_named _ _ _ _ Hname Hve). reflexivity.
    + by simplify_map_eq.
    + eexists. by simplify_map_eq.
    + eexists. by simplify_map_eq.
  - eexists. split; vm_compute; reflexivity.
Qed.

(** Witness of C10: the entry [flavr]. *)
Lemma default_version_present_witness :
  is_Some (model_dict !! "flavr" ≫= (λ cfgs, model_version cfgs !! "a")).
Proof.
  destruct (proj1 default_version_present "flavr"
              {| model_type := "video_interpolation";
                 model_version := list_to_map [
                   ("a", {| ver_config := "flavr/flavr_in4out1_8xb4_vimeo90k-septuplet.py";
                            ver_ckpt := "ckpt/video_interpolation/flavr_in4out1_g8b4_vimeo90k_septuplet_20220509-c2468995.pth" |})] |})
    as [[ve Hve] _].
  - vm_compute. reflexivity.
  - vm_compute. eexists. reflexivity.
Defined.

End MMEdit_facts.

(* ================================================================== *)
(** * Properties of the translation model *)

Local Open Scope list_scope.
Local Open Scope nat_scope.

Section Store_facts.
Import BaseTranslationModel.
Context {F : Framework} {C : Collaborators}.

Lemma alist_get_set {A} (k k' : string) (v : A) (l : list (string * A)) :
  alist_get k' (alist_set k v l)
    = if bool_decide (k = k') then Some v else alist_get k' l.
Proof.
  induction l as [|[k0 v0] l IH]; simpl.
  - by repeat case_bool_decide.
  - repeat (case_bool_decide; simpl; simplify_eq); try done.
Qed.

(** An invariant of the loop body is an invariant of the loop. *)
Lemma for_each_invariant {A S} (body : A → S → result S) (P : S → Prop)
    (l : list A) (s s' : S) :
  (∀ x t t', x ∈ l → P t → body x t = Ok t' → P t') →
  P s → for_each body l s = Ok s' → P s'.
Proof.
  revert s. induction l as [|x l IH]; intros s Hbody Hs; simpl.
  - by intros [= <-].
  - destruct (body x s) as [t|] eqn:Hx; simpl; [|done].
    apply IH.
    + intros y t0 t1 Hy. apply Hbody. by right.
    + eapply Hbody; [left | exact Hs | exact Hx].
Qed.

Lemma update_obj_ok (o : oid) (f : ModuleObj → ModuleObj) (w w' : World) :
  update_obj o f w = Ok w' →
  is_Some (heap w !! o) ∧ heap w' = alter f o (heap w) ∧ maps w' = maps w.
Proof.
  unfold update_obj. destruct (heap w !! o) as [obj|] eqn:Ho; [|done].
  intros [= <-]. by eauto.
Qed.

End Store_facts.

Section Query_facts.
Import BaseTranslationModel.
Context {F : Framework} {C : Collaborators}.

(** C8. For every domain [d], in [related_domains] or not, the elements of
    [get_other_domains d] are the related domains without [d], each one
    once; when [d] is not a related domain they are the related domains. *)
Theorem other_domains_spec (m : Model) (d : string) :
  (list_to_set (get_other_domains m d) : gset string)
    = list_to_set (_related_domains m) ∖ {[d]} ∧
  (∀ x, x ∈ get_other_domains m d ↔ x ∈ _related_domains m ∧ x ≠ d) ∧
  NoDup (get_other_domains m d) ∧
  (d ∉ _related_domains m →
     (list_to_set (get_other_domains m d) : gset string)
       = list_to_set (_related_domains m)).
Proof.
  unfold get_other_domains.
  assert (∀ x, x ∈ elements ((list_to_set (_related_domains m) : gset string)
                               ∖ list_to_set [d])
               ↔ x ∈ _related_domains m ∧ x ≠ d) as Hmem.
  { intros x. rewrite elem_of_elements, elem_of_difference.
    rewrite !elem_of_list_to_set, list_elem_of_singleton. done. }
  split; [|split; [exact Hmem | split; [apply NoDup_elements|]]].
  - apply set_eq. intros x.
    rewrite elem_of_list_to_set, Hmem, elem_of_difference.
    rewrite elem_of_list_to_set, elem_of_singleton. done.
  - intros Hd. apply set_eq. intros x.
    rewrite !elem_of_list_to_set, Hmem.
    split; [by intros [? _] | intros Hx; split; [done | congruence]].
Qed.

(** C5. [forward_train] returns the input image as [source] and the
    translation as [target]; [forward_test] is [forward_train] with both
    moved to the host: it raises when [forward_train] raises, with the same
    exception, and leaves the same store. *)
Theorem forward_modes (m : Model) (img : Tensor) (target_domain : option string)
    (kwargs : Kwargs) (w : World) :
  forward_train m img target_domain kwargs w
    = (r ← translation m img target_domain kwargs w;
       Ok ({| source := img; target := r.1 |}, r.2)) ∧
  forward_test m img target_domain kwargs w
    = prod_map to_host id <$> forward_train m img target_domain kwargs w ∧
  forward m img false target_domain kwargs w
    = forward_train m img target_domain kwargs w ∧
  forward m img true target_domain kwargs w
    = forward_test m img target_domain kwargs w.
Proof.
  unfold forward, forward_test, forward_train.
  destruct (translation m img target_domain kwargs w) as [[t w']|e]; done.
Qed.

End Query_facts.

Section Construction_facts.
Import BaseTranslationModel.
Context {F : Framework} {C : Collaborators}.


Lemma setattr_module_ok (o : oid) (name : string) (c : oid) (w : World)
    (obj : ModuleObj) :
  heap w !! o = Some obj →
  setattr_module o name c w
    = Ok (with_heap
            (alter (λ obj, set_modules (alist_set name c (_modules obj)) obj)
               o (heap w)) w).
Proof. unfold setattr_module, update_obj. by intros ->. Qed.

(** On a new object the constructor of the base class does not raise. *)
Lemma BaseModel_init_new (dp : oid) (w : World) :
  ∃ w1,
    BaseModel___init__ (length (heap w)) dp (alloc new_module w).2 = Ok w1 ∧
    length (heap w1) = S (length (heap w)) ∧
    is_Some (heap w1 !! length (heap w)).
Proof.
  unfold BaseModel___init__, alloc, update_obj. simpl.
  rewrite lookup_app_r, Nat.sub_diag by done. simpl.
  erewrite setattr_module_ok; last first.
  { simpl. rewrite list_lookup_alter_eq, lookup_app_r, Nat.sub_diag by done.
    done. }
  eexists. split; [done|]. simpl.
  rewrite !length_alter, length_app. simpl. split; [lia|].
  rewrite !list_lookup_alter_eq, lookup_app_r, Nat.sub_diag by done.
  simpl. by eexists.
Qed.

(** C2. The construction raises the assertion error when the default domain
    is not reachable or some reachable domain is not a related domain; when
    it returns a model, both hold. *)
Theorem construction_precondition (cls : string) (generator : Cfg)
    (discriminator : option Cfg) (default_domain : string)
    (reachable_domains related_domains : list string) (data_preprocessor : oid)
    (discriminator_steps disc_init_steps : Z) (real_img_key : string)
    (loss_config : option Cfg) (w : World) :
  let built :=
    construct cls generator discriminator default_domain reachable_domains
      related_domains data_preprocessor discriminator_steps disc_init_steps
      real_img_key loss_config w in
  (default_domain ∉ reachable_domains ∨
   ¬ (list_to_set reachable_domains : gset string) ⊆ list_to_set related_domains →
     built = Raise (AssertionError None)) ∧
  (is_ok built = true →
     default_domain ∈ reachable_domains ∧
     (list_to_set reachable_domains : gset string) ⊆ list_to_set related_domains ∧
     ∀ d, d ∈ reachable_domains → d ∈ related_domains).
Proof.
  intros built. subst built. unfold construct.
  destruct (BaseModel_init_new data_preprocessor w) as (w1 & Hbase & _).
  unfold alloc in *. simpl in *. unfold __init__. rewrite Hbase. simpl.
  unfold py_assert.
  destruct (decide (default_domain ∈ reachable_domains)) as [Hdef|Hdef].
  - rewrite (bool_decide_eq_true_2 _ Hdef). simpl.
    destruct (decide ((list_to_set reachable_domains : gset string)
                        ⊆ list_to_set related_domains)) as [Hsub|Hsub].
    + split; [by intros [?|?]|]. intros _.
      split; [done|]. split; [done|].
      intros d Hd. apply (elem_of_list_to_set (C:=gset string)).
      apply Hsub. by apply elem_of_list_to_set.
    + rewrite (bool_decide_eq_false_2 _ Hsub). simpl. done.
  - rewrite (bool_decide_eq_false_2 _ Hdef). simpl. done.
Qed.

(** The objects of a store stay where they are when a module tree is
    added to it. *)
Lemma instantiate_lookup (bp : Blueprint) (w : World) (o : oid) (obj : ModuleObj) :
  heap w !! o = Some obj → heap (instantiate bp w).2 !! o = Some obj.
Proof. intros Ho. simpl. by apply lookup_app_l_Some. Qed.

(** One round of the building loop: the new module is stored under the
    domain in the container, and no other object changes. *)
Lemma build_domain_spec (self c : oid) (attr : string) (cfg : Cfg) (d : string)
    (w w' : World) (sobj cobj : ModuleObj) :
  heap w !! self = Some sobj →
  alist_get attr (_modules sobj) = Some c →
  heap w !! c = Some cobj →
  build_domain self attr cfg d w = Ok w' →
  (∀ o obj, o ≠ c → heap w !! o = Some obj → heap w' !! o = Some obj) ∧
  ∃ built,
    heap w' !! c = Some (set_modules (alist_set d built (_modules cobj)) cobj).
Proof.
  intros Hself Hattr Hc. unfold build_domain.
  destruct (MODELS_build cfg) as [bp|]; [|done].
  cbv beta iota delta [mbind result_bind].
  pose proof (instantiate_lookup bp w) as Hext.
  destruct (instantiate bp w) as [built w1]. simpl in Hext.
  unfold getattr_module, get_obj.
  rewrite (Hext _ _ Hself). simpl. rewrite Hattr. simpl.
  unfold ModuleDict_setitem, update_obj.
  destruct (module_name_ok d); [|done].
  rewrite (Hext _ _ Hc).
  intros [= <-]. simpl. split.
  - intros o obj Hne Ho.
    rewrite list_lookup_alter_ne by done. by apply Hext.
  - exists built. by rewrite list_lookup_alter_eq, (Hext _ _ Hc).
Qed.

(** The building loop: afterwards the container has a module for every
    domain of the loop, besides those it had; no other object changes. *)
Lemma build_loop_spec (self c : oid) (attr : string) (cfg : Cfg)
    (ds : list string) (w w' : World) (sobj cobj : ModuleObj) :
  c ≠ self →
  heap w !! self = Some sobj →
  alist_get attr (_modules sobj) = Some c →
  heap w !! c = Some cobj →
  for_each (build_domain self attr cfg) ds w = Ok w' →
  (∀ o obj, o ≠ c → heap w !! o = Some obj → heap w' !! o = Some obj) ∧
  ∃ cobj',
    heap w' !! c = Some cobj' ∧
    is_wrapper cobj' = is_wrapper cobj ∧
    (∀ d, is_Some (alist_get d (_modules cobj)) ∨ d ∈ ds →
          is_Some (alist_get d (_modules cobj'))).
Proof.
  intros Hne. revert w cobj.
  induction ds as [|d ds IH]; intros w cobj Hself Hattr Hc; simpl.
  - intros [= <-]. split; [done|]. exists cobj. split; [done|]. split; [done|].
    intros d [?|Hd]; [done | by apply elem_of_nil in Hd].
  - destruct (build_domain self attr cfg d w) as [w1|] eqn:Hstep; simpl; [|done].
    intros Hrest.
    destruct (build_domain_spec _ _ _ _ _ _ _ _ _ Hself Hattr Hc Hstep)
      as (Hkeep1 & built & Hc1).
    destruct (IH w1 _ (Hkeep1 _ _ (not_eq_sym Hne) Hself) Hattr Hc1 Hrest)
      as (Hkeep2 & cobj' & Hc' & Hwrap & Hkeys).
    split; [by eauto|].
    exists cobj'. split; [done|]. split; [done|].
    intros d' Hd'. apply Hkeys. simpl. rewrite alist_get_set.
    case_bool_decide as Hdd; [left; by eexists|].
    destruct Hd' as [?|Hd']; [by left|].
    apply elem_of_cons in Hd' as [->|?]; [done | by right].
Qed.

Lemma construct_ready (cls : string) (generator : Cfg)
    (discriminator : option Cfg) (default_domain : string)
    (reachable_domains related_domains : list string) (data_preprocessor : oid)
    (discriminator_steps disc_init_steps : Z) (real_img_key : string)
    (loss_config : option Cfg) (w w' : World) (m : Model) :
  construct cls generator discriminator default_domain reachable_domains
    related_domains data_preprocessor discriminator_steps disc_init_steps
    real_img_key loss_config w = Ok (m, w') →
  _default_domain m = default_domain ∧
  _reachable_domains m = reachable_domains ∧
  _related_domains m = related_domains ∧
  default_domain ∈ reachable_domains ∧
  generators_ready m w'.
Proof.
  unfold construct.
  destruct (BaseModel_init_new data_preprocessor w)
    as (w1 & Hbase & Hlen1 & [sobj1 Hself1]).
  unfold alloc in *. simpl in Hbase. cbv beta iota. unfold __init__.
  rewrite Hbase. cbv beta iota delta [mbind result_bind].
  unfold py_assert.
  destruct (bool_decide (default_domain ∈ reachable_domains)) eqn:Hdef; [|done].
  apply bool_decide_eq_true_1 in Hdef.
  destruct (bool_decide (_ ⊆ _)); [|done].
  set (self := length (heap w)) in *.
  set (gens := length (heap w1)).
  assert (gens ≠ self) as Hne by (subst gens; lia).
  (* self.generators = nn.ModuleDict() *)
  unfold alloc. cbv beta iota.
  erewrite setattr_module_ok; last first.
  { simpl. by apply lookup_app_l_Some. }
  set (w2 := with_heap _ _).
  assert (heap w2 !! self
            = Some (set_modules (alist_set "generators" gens (_modules sobj1))
                      sobj1)) as Hself2.
  { subst w2. simpl. rewrite list_lookup_alter_eq.
    by rewrite (lookup_app_l_Some _ _ _ _ Hself1). }
  assert (heap w2 !! gens = Some new_module) as Hgens2.
  { subst w2. simpl. rewrite list_lookup_alter_ne by done.
    subst gens. by rewrite lookup_app_r, Nat.sub_diag. }
  destruct (for_each _ reachable_domains w2) as [w3|] eqn:Hloop1; [|done].
  eapply build_loop_spec in Hloop1 as (Hkeep3 & gobj & Hgens3 & Hwrap3 & Hkeys3);
    [| exact Hne | exact Hself2 | by simpl; rewrite alist_get_set, bool_decide_eq_true_2
     | exact Hgens2 ].
  pose proof (Hkeep3 _ _ (not_eq_sym Hne) Hself2) as Hself3.
  destruct discriminator as [disc_cfg|].
  - (* self.discriminators = nn.ModuleDict() *)
    set (discs := length (heap w3)).
    assert (discs ≠ self) as Hds
      by (subst discs; apply lookup_lt_Some in Hself3; lia).
    assert (discs ≠ gens) as Hdg
      by (subst discs; apply lookup_lt_Some in Hgens3; lia).
    erewrite setattr_module_ok; last first.
    { simpl. by apply lookup_app_l_Some. }
    set (w4 := with_heap _ _).
    assert (∃ sobj4, heap w4 !! self = Some sobj4 ∧
              alist_get "generators" (_modules sobj4) = Some gens ∧
              alist_get "discriminators" (_modules sobj4) = Some discs)
      as (sobj4 & Hself4 & Hg4 & Hd4).
    { eexists. split.
      - subst w4. simpl. rewrite list_lookup_alter_eq.
        by rewrite (lookup_app_l_Some _ _ _ _ Hself3).
      - simpl. rewrite !alist_get_set. by repeat case_bool_decide. }
    assert (heap w4 !! gens = Some gobj) as Hgens4.
    { subst w4. simpl. rewrite list_lookup_alter_ne by done.
      by apply lookup_app_l_Some. }
    assert (heap w4 !! discs = Some new_module) as Hdiscs4.
    { subst w4. simpl. rewrite list_lookup_alter_ne by done.
      subst discs. by rewrite lookup_app_r, Nat.sub_diag. }
    destruct (for_each _ reachable_domains w4) as [w5|] eqn:Hloop2; [|done].
    eapply build_loop_spec in Hloop2 as (Hkeep5 & _);
      [| exact Hds | exact Hself4 | exact Hd4 | exact Hdiscs4 ].
    intros [= <- <-]. simpl. repeat (split; [done|]).
    exists sobj4, gens, gobj. simpl.
    split; [by apply Hkeep5|]. split; [done|].
    split; [by apply Hkeep5|]. split; [by rewrite Hwrap3|].
    intros d Hd. apply Hkeys3. by right.
  - intros [= <- <-]. simpl. repeat (split; [done|]).
    eexists _, gens, gobj. simpl.
    split; [exact Hself3|].
    split; [simpl; by rewrite alist_get_set, bool_decide_eq_true_2|].
    split; [done|]. split; [by rewrite Hwrap3|].
    intros d Hd. apply Hkeys3. by right.
Qed.

Lemma str_app_empty_r (s : string) : s +:+ "" = s.
Proof.
  induction s as [|c s IH]; [done|].
  change (String c (s +:+ "") = String c s). by f_equal.
Qed.

Lemma str_in_refl (s : string) : str_in s s = true.
Proof.
  pose proof (str_in_intro s "" "") as Hin.
  change ("" +:+ s +:+ "") with (s +:+ "") in Hin.
  by rewrite str_app_empty_r in Hin.
Qed.

Lemma not_reachable_msg_names (m : Model) (X : string) :
  str_in X (not_reachable_msg m X) = true ∧
  str_in (py_str_list (_reachable_domains m)) (not_reachable_msg m X) = true.
Proof.
  unfold not_reachable_msg. split.
  - apply (str_in_intro X "").
  - do 3 apply str_in_app_r. apply str_in_refl.
Qed.

(** The lookups behind [translation] on a model whose generators are in
    place. *)
Lemma target_generator_ready (m : Model) (w : World) (d : string) :
  generators_ready m w →
  d ∈ _reachable_domains m →
  ∃ gens g,
    getattr_module (self_id m) "generators" w = Ok gens ∧
    ModuleDict_getitem gens d w = Ok g ∧
    _get_target_generator m d w = Ok g.
Proof.
  intros (sobj & gens & gobj & Hself & Hgens & Hgobj & Hwrap & Hkeys) Hd.
  destruct (Hkeys d Hd) as [g Hg].
  assert (getattr_module (self_id m) "generators" w = Ok gens) as Hattr.
  { unfold getattr_module, get_obj. rewrite Hself. simpl. by rewrite Hgens. }
  assert (ModuleDict_getitem gens d w = Ok g) as Hitem.
  { unfold ModuleDict_getitem, get_obj. rewrite Hgobj. simpl. by rewrite Hg. }
  exists gens, g. split; [done|]. split; [done|].
  unfold _get_target_generator, py_assert, is_domain_reachable.
  rewrite bool_decide_eq_true_2 by done. simpl.
  rewrite Hattr. simpl. unfold get_obj. rewrite Hgobj. simpl.
  rewrite Hwrap. simpl. exact Hitem.
Qed.

(** C1. On a constructed model, [translation] without a target domain
    calls the module registered for the default domain in the generators,
    with the image and the extra arguments.  For a domain [X] that is not
    reachable, [translation] and the lookups of the generator and of the
    discriminator raise the assertion error whose message contains [X] and
    the list of reachable domains. *)
Theorem translation_domains (cls : string) (generator : Cfg)
    (discriminator : option Cfg) (default_domain : string)
    (reachable_domains related_domains : list string) (data_preprocessor : oid)
    (discriminator_steps disc_init_steps : Z) (real_img_key : string)
    (loss_config : option Cfg) (w0 w : World) (m : Model) :
  construct cls generator discriminator default_domain reachable_domains
    related_domains data_preprocessor discriminator_steps disc_init_steps
    real_img_key loss_config w0 = Ok (m, w) →
  (_default_domain m = default_domain ∧
   _reachable_domains m = reachable_domains ∧
   ∃ gens g,
     getattr_module (self_id m) "generators" w = Ok gens ∧
     ModuleDict_getitem gens default_domain w = Ok g ∧
     ∀ image kwargs,
       translation m image None kwargs w = module_call g image kwargs w) ∧
  (∀ X, X ∉ reachable_domains →
     ∀ (w' : World) image kwargs,
       let raised := AssertionError (Some (not_reachable_msg m X)) in
       translation m image (Some X) kwargs w' = Raise raised ∧
       _get_target_generator m X w' = Raise raised ∧
       _get_target_discriminator m X w' = Raise raised ∧
       str_in X (not_reachable_msg m X) = true ∧
       str_in (py_str_list reachable_domains) (not_reachable_msg m X) = true).
Proof.
  intros (Hdef & Hreach & _ & Hin & Hready)%construct_ready.
  split.
  - split; [done|]. split; [done|].
    destruct (target_generator_ready m w default_domain Hready)
      as (gens & g & Hattr & Hitem & Hgen); [by rewrite Hreach|].
    exists gens, g. split; [done|]. split; [done|].
    intros image kwargs. unfold translation. simpl.
    rewrite Hdef, Hgen. done.
  - intros X HX w' image kwargs raised.
    assert (is_domain_reachable m X = false) as Hno.
    { unfold is_domain_reachable. apply bool_decide_eq_false_2.
      by rewrite Hreach. }
    destruct (not_reachable_msg_names m X) as [HmsgX Hmsgl].
    rewrite Hreach in Hmsgl.
    unfold translation, _get_target_generator, _get_target_discriminator,
      py_assert. simpl. rewrite Hno. done.
Qed.

End Construction_facts.

Section Traversal_facts.
Import BaseTranslationModel.
Context {F : Framework}.

(** A larger memo leaves less to do. *)
Lemma pending_mono (memo memo' : list oid) (base : nat) (h : list ModuleObj) :
  (∀ x, x ∈ memo → x ∈ memo') →
  pending memo' base h ≤ pending memo base h.
Proof.
  intros Hsub. revert base.
  induction h as [|obj h IH]; intros base; simpl; [done|].
  specialize (IH (S base)).
  repeat case_bool_decide; try lia. exfalso. by eauto.
Qed.

(** Visiting an object takes its children out of what is pending. *)
Lemma pending_visit (memo : list oid) (base o : nat) (h : list ModuleObj)
    (obj : ModuleObj) :
  h !! o = Some obj →
  base + o ∉ memo →
  pending ((base + o) :: memo) base h + length (_modules obj)
    ≤ pending memo base h.
Proof.
  revert base o. induction h as [|obj0 h IH]; intros base o Ho Hnew; [done|].
  destruct o as [|o]; simpl in *.
  - injection Ho as ->. rewrite Nat.add_0_r in *.
    rewrite bool_decide_eq_true_2 by left.
    rewrite bool_decide_eq_false_2 by done.
    pose proof (pending_mono memo (base :: memo) (S base) h) as Hmono.
    specialize (Hmono ltac:(intros; by right)). lia.
  - replace (base + S o) with (S base + o) in * by lia.
    specialize (IH (S base) o Ho Hnew).
    repeat case_bool_decide; try lia.
    exfalso. by match goal with Hn : _ ∉ _ :: _ |- _ => apply Hn; right end.
Qed.

(** With enough fuel the traversal stops because the work list is empty:
    what it yields, together with the memo, contains the valid objects of
    the work list and is closed under registered children. *)
Lemma modules_walk_closed (fuel : nat) (h : list ModuleObj)
    (todo memo : list oid) :
  length todo + pending memo 0 h ≤ fuel →
  (∀ o, o ∈ todo → is_Some (h !! o) →
        o ∈ memo ∨ o ∈ modules_walk fuel h todo memo) ∧
  (∀ o obj c, o ∈ modules_walk fuel h todo memo →
        h !! o = Some obj → c ∈ (_modules obj).*2 → is_Some (h !! c) →
        c ∈ memo ∨ c ∈ modules_walk fuel h todo memo).
Proof.
  revert todo memo.
  induction fuel as [|fuel IH]; intros todo memo Hfuel.
  { destruct todo; simpl in *; [|lia].
    split; intros ? *; by rewrite ?elem_of_nil. }
  destruct todo as [|o todo]; simpl in *.
  { split; intros ? *; by rewrite ?elem_of_nil. }
  case_bool_decide as Hmemo.
  - destruct (IH todo memo ltac:(lia)) as [Htodo Hclosed].
    split; [|done].
    intros x [->|Hx]%elem_of_cons Hvalid; [by left | by apply Htodo].
  - destruct (h !! o) as [obj|] eqn:Ho.
    + pose proof (pending_visit memo 0 o h obj Ho Hmemo) as Hvisit.
      simpl in Hvisit.
      destruct (IH ((_modules obj).*2 ++ todo) (o :: memo)) as [Htodo Hclosed].
      { rewrite length_app, length_fmap. lia. }
      assert (∀ x, x ∈ o :: memo ∨ x ∈ modules_walk fuel h
                       ((_modules obj).*2 ++ todo) (o :: memo) →
                   x ∈ memo ∨ x ∈ o :: modules_walk fuel h
                       ((_modules obj).*2 ++ todo) (o :: memo)) as Hshift.
      { intros x [[->|?]%elem_of_cons|?]; [right; left | by left | right; by right]. }
      split.
      * intros x [->|Hx]%elem_of_cons Hvalid; [right; left|].
        apply Hshift, Htodo; [|done]. apply elem_of_app. by right.
      * intros x objx c [->|Hx]%elem_of_cons Hobjx Hc Hvalid; apply Hshift.
        -- rewrite Ho in Hobjx. injection Hobjx as <-.
           apply Htodo; [|done]. apply elem_of_app. by left.
        -- by eapply Hclosed.
    + destruct (IH todo memo ltac:(lia)) as [Htodo Hclosed].
      split; [|done].
      intros x [->|Hx]%elem_of_cons Hvalid; [|by apply Htodo].
      rewrite Ho in Hvalid. by destruct Hvalid.
Qed.

(** [modules] yields every object that is the root or below it. *)
Lemma modules_complete (h : list ModuleObj) (root o : oid) :
  submodule_of h root o → is_Some (h !! o) → o ∈ modules h root.
Proof.
  unfold modules.
  destruct (modules_walk_closed (S (pending [] 0 h)) h [root] [])
    as [Hroot Hclosed]; [simpl; lia|].
  induction 1 as [|p c obj name Hp IH Hobj Hc]; intros Hvalid.
  - destruct (Hroot root) as [Hin|Hin]; [left | done | | done].
    by apply elem_of_nil in Hin.
  - destruct (Hclosed p obj c) as [Hin|Hin]; try done.
    + apply IH. by eexists.
    + apply list_elem_of_fmap. by exists (name, c).
    + by apply elem_of_nil in Hin.
Qed.

End Traversal_facts.

Section Cleanup_facts.
Import BaseTranslationModel.
Context {F : Framework} {C : Collaborators}.

Lemma set_info_None_id (obj : ModuleObj) :
  _params_init_info obj = None → set_info None obj = obj.
Proof. destruct obj; simpl; by intros ->. Qed.

(** Guarded by [hasattr] or not, deleting the attribute sets it to absent. *)
Lemma drop_step_alter (h : list ModuleObj) (o : oid) :
  (if hasattr_info o h then delattr_info o h else h)
    = alter (set_info None) o h.
Proof.
  unfold hasattr_info, delattr_info.
  destruct (h !! o) as [obj|] eqn:Ho.
  - case_bool_decide as Hattr; [done|].
    apply list_eq. intros i. rewrite list_lookup_alter.
    case_decide as Hi; [|done]. subst i.
    rewrite Ho. simpl. f_equal. symmetry. apply set_info_None_id.
    destruct (_params_init_info obj); [|done].
    exfalso. apply Hattr. by eexists.
  - apply list_eq. intros i. rewrite list_lookup_alter.
    case_decide as Hi; [|done]. subst i. by rewrite Ho.
Qed.

(** The heap after the deleting loop over the objects [L]. *)
Lemma drop_loop_lookup (L : list oid) (h : list ModuleObj) (i : oid) :
  foldl (λ h o, if hasattr_info o h then delattr_info o h else h) h L !! i
    = if bool_decide (i ∈ L) then set_info None <$> h !! i else h !! i.
Proof.
  revert h. induction L as [|o L IH]; intros h; simpl; [done|].
  rewrite IH, drop_step_alter.
  destruct (decide (o = i)) as [->|Hne].
  - rewrite list_lookup_alter_eq.
    rewrite (bool_decide_eq_true_2 (i ∈ i :: L)) by left.
    case_bool_decide; [|done]. by destruct (h !! i).
  - rewrite list_lookup_alter_ne by done.
    apply (f_equal (λ b : bool, if b then _ else _)).
    apply bool_decide_ext. rewrite elem_of_cons.
    split; [by right | by intros [->|?]].
Qed.

Lemma drop_tracking_maps_lookup (self i : oid) (w : World) :
  heap (drop_tracking_maps self w) !! i
    = if bool_decide (i ∈ modules (heap w) self)
      then set_info None <$> heap w !! i else heap w !! i.
Proof. unfold drop_tracking_maps. simpl. apply drop_loop_lookup. Qed.

(** The deleting loop leaves the registered children as they are. *)
Lemma drop_tracking_maps_children (self i : oid) (w : World) :
  _modules <$> heap (drop_tracking_maps self w) !! i = _modules <$> heap w !! i.
Proof.
  rewrite drop_tracking_maps_lookup.
  case_bool_decide; [|done]. by destruct (heap w !! i).
Qed.

Lemma drop_tracking_maps_submodule (self o : oid) (w : World) :
  submodule_of (heap (drop_tracking_maps self w)) self o →
  submodule_of (heap w) self o.
Proof.
  induction 1 as [|p c obj name Hp IH Hobj Hc]; [constructor|].
  pose proof (drop_tracking_maps_children self p w) as Hch.
  rewrite Hobj in Hch. simpl in Hch.
  destruct (heap w !! p) as [obj0|] eqn:Hobj0; [|done].
  injection Hch as Hch.
  eapply submodule_child; [exact IH | exact Hobj0 | by rewrite <-Hch].
Qed.

(** Detaching changes nothing but the tracking attribute. *)
Lemma drop_tracking_maps_erase (self : oid) (w : World) :
  erase_info (drop_tracking_maps self w) = erase_info w.
Proof.
  unfold erase_info. apply list_eq. intros i.
  rewrite !list_lookup_fmap, drop_tracking_maps_lookup.
  case_bool_decide; [|done]. by destruct (heap w !! i).
Qed.

(** Attaching changes nothing but the tracking attribute. *)
Lemma setattr_info_erase (o : oid) (info : nat) (w w' : World) :
  setattr_info o info w = Ok w' → erase_info w' = erase_info w.
Proof.
  intros (_ & Hheap & _)%update_obj_ok.
  unfold erase_info. rewrite Hheap. apply list_eq. intros i.
  rewrite !list_lookup_fmap, list_lookup_alter.
  case_decide as Hi; [|done]. subst i.
  by destruct (heap w !! o).
Qed.

Lemma new_tracking_map_erase (self : oid) (w w' : World) :
  new_tracking_map self w = Ok w' → erase_info w' = erase_info w.
Proof. unfold new_tracking_map. by intros ->%setattr_info_erase. Qed.

Lemma record_param_erase (m : Model) (p : string * nat) (w w' : World) :
  record_param m p w = Ok w' → erase_info w' = erase_info w.
Proof.
  unfold record_param.
  destruct (getattr_info (self_id m) w); simpl; [|done]. by intros [= <-].
Qed.

(** What the bookkeeping of [init_weights] leaves alone: whatever relation
    [R] between the states of the module tree without the tracking
    attribute the collaborators keep, the call keeps. *)
Section Frame.
Context (R : relation (list ModuleObj)) `{!PreOrder R}.
Hypothesis init_weights_R : ∀ o w w',
  module_init_weights o w = Ok w' → R (erase_info w) (erase_info w').
Hypothesis dump_R : ∀ o w w',
  dump_init_info o w = Ok w' → R (erase_info w) (erase_info w').

Lemma init_module_frame (m : Model) (o : oid) (w w' : World) :
  init_module m o w = Ok w' → R (erase_info w) (erase_info w').
Proof.
  unfold init_module.
  destruct (getattr_info (self_id m) w) as [info|]; simpl; [|done].
  destruct (setattr_info o info w) as [w1|] eqn:Hset; simpl; [|done].
  apply setattr_info_erase in Hset as <-. apply init_weights_R.
Qed.

Lemma init_domain_frame (m : Model) (d : string) (w w' : World) :
  init_domain m d w = Ok w' → R (erase_info w) (erase_info w').
Proof.
  unfold init_domain.
  destruct (getattr_module (self_id m) "generators" w) as [gens|]; simpl; [|done].
  destruct (domain_module gens d w) as [gen|]; simpl; [|done].
  destruct (init_module m gen w) as [w1|] eqn:Hgen; simpl; [|done].
  apply init_module_frame in Hgen.
  destruct (getattr_optional (self_id m) "discriminators" w1) as [[discs|]|];
    simpl; [| |done].
  - destruct (domain_module discs d w1) as [disc|]; simpl; [|done].
    intros Hdisc%init_module_frame. by etrans.
  - by intros [= <-].
Qed.

Lemma init_weights_frame (m : Model) (w w' : World) :
  init_weights m w = Ok w' → R (erase_info w) (erase_info w').
Proof.
  unfold init_weights.
  destruct (new_tracking_map (self_id m) w) as [w1|] eqn:Hnew; simpl; [|done].
  apply new_tracking_map_erase in Hnew as <-.
  destruct (for_each (record_param m) _ w1) as [w2|] eqn:Hrec; simpl; [|done].
  apply (for_each_invariant _ (λ w2, erase_info w2 = erase_info w1)) in Hrec;
    [| by intros p t t' _ <- ?%record_param_erase | done ].
  rewrite <-Hrec.
  destruct (for_each (init_domain m) _ w2) as [w3|] eqn:Hdom; simpl; [|done].
  apply (for_each_invariant _ (λ w3, R (erase_info w2) (erase_info w3))) in Hdom;
    [| intros d t t' _ Ht ?%init_domain_frame; by etrans | done ].
  destruct (dump_init_info (self_id m) w3) as [w4|] eqn:Hdump; simpl; [|done].
  apply dump_R in Hdump. intros [= <-].
  rewrite drop_tracking_maps_erase. by do 2 (etrans; [eassumption|]).
Qed.

End Frame.

(** C6. After a call of [init_weights] that returns, the model and every
    module below it are without the attribute [_params_init_info].
    Attaching and detaching change nothing else in the module tree: each of
    the two steps leaves the state without the tracking attribute as it
    was, and whatever relation between such states every call of a
    collaborator keeps, the whole call keeps. *)
Theorem init_weights_cleanup (m : Model) (w w' : World) :
  init_weights m w = Ok w' →
  (∀ o obj,
     submodule_of (heap w') (self_id m) o →
     heap w' !! o = Some obj →
     _params_init_info obj = None) ∧
  (∀ o info w1 w2,
     setattr_info o info w1 = Ok w2 → erase_info w2 = erase_info w1) ∧
  (∀ w1, erase_info (drop_tracking_maps (self_id m) w1) = erase_info w1) ∧
  (∀ R : relation (list ModuleObj), PreOrder R →
     (∀ o w1 w2, module_init_weights o w1 = Ok w2 →
                 R (erase_info w1) (erase_info w2)) →
     (∀ o w1 w2, dump_init_info o w1 = Ok w2 →
                 R (erase_info w1) (erase_info w2)) →
     R (erase_info w) (erase_info w')).
Proof.
  intros Hcall.
  split; [|split; [apply setattr_info_erase|
           split; [apply drop_tracking_maps_erase|]]].
  - unfold init_weights in Hcall.
    destruct (new_tracking_map _ w) as [w1|]; simpl in Hcall; [|done].
    destruct (for_each (record_param m) _ w1) as [w2|]; simpl in Hcall; [|done].
    destruct (for_each (init_domain m) _ w2) as [w3|]; simpl in Hcall; [|done].
    destruct (dump_init_info _ w3) as [w4|]; simpl in Hcall; [|done].
    injection Hcall as <-.
    intros o obj Hsub Hobj.
    apply drop_tracking_maps_submodule in Hsub.
    rewrite drop_tracking_maps_lookup in Hobj.
    destruct (heap w4 !! o) as [obj4|] eqn:Hobj4;
      [|by destruct (bool_decide _)].
    rewrite bool_decide_eq_true_2 in Hobj
      by (apply modules_complete; [done | by eexists]).
    by injection Hobj as <-.
  - intros R HR Hinit Hdump. by eapply init_weights_frame.
Qed.

End Cleanup_facts.

(** ** The theorems on the small instance *)

Section Witnesses.
Import BaseTranslationModel.
Import BaseTranslationModel.Toy.

(** Witness of C1: the default domain [photo] has the generator 3; the
    domain [mask] is related but not reachable. *)
Lemma translation_domains_witness :
  translation toy_model toy_image None tt toy_built
    = module_call 3 toy_image tt toy_built ∧
  translation toy_model toy_image (Some "mask") tt toy_built
    = Raise (AssertionError (Some
        "mask domain is not reachable, available domain list is            ['photo', 'sketch']")).
Proof.
  destruct (translation_domains (C:=toy_collaborators) "Pix2Pix" 7 (Some 8) "photo"
              ["photo"; "sketch"] ["photo"; "sketch"; "mask"] 0 1 0 "real_img"
              None toy_world toy_built toy_model)
    as [(_ & _ & gens & g & Hgens & Hitem & Hcall) Hraise].
  - vm_compute. reflexivity.
  - split.
    + rewrite Hcall. vm_compute in Hgens. injection Hgens as <-.
      vm_compute in Hitem. injection Hitem as <-. reflexivity.
    + apply (Hraise "mask"). by rewrite !elem_of_cons, elem_of_nil; intros [|[|]].
Defined.

(** Witness of C2: default domain [B] with reachable domains [A] is
    rejected; the domains of the small instance pass. *)
Lemma construction_precondition_witness :
  construct "Pix2Pix" 7 (Some 8) "B" ["A"] ["A"] 0 1 0 "real_img" None toy_world
    = Raise (AssertionError None) ∧
  "photo" ∈ ["photo"; "sketch"].
Proof.
  split.
  - apply (proj1 (construction_precondition (C:=toy_collaborators) "Pix2Pix" 7 (Some 8) "B" ["A"]
                    ["A"] 0 1 0 "real_img" None toy_world)).
    left. by rewrite elem_of_cons, elem_of_nil; intros [|].
  - apply (proj2 (construction_precondition (C:=toy_collaborators) "Pix2Pix" 7 (Some 8) "photo"
                    ["photo"; "sketch"] ["photo"; "sketch"; "mask"] 0 1 0
                    "real_img" None toy_world)).
    vm_compute. reflexivity.
Defined.

(** Witness of C6: the call returns on the constructed model, and no module
    of its tree has the attribute afterwards. *)
Lemma init_weights_cleanup_witness :
  init_weights toy_model toy_built = Ok toy_initialised ∧
  ∀ o obj,
    submodule_of (heap toy_initialised) (self_id toy_model) o →
    heap toy_initialised !! o = Some obj →
    _params_init_info obj = None.
Proof.
  split.
  - vm_compute. reflexivity.
  - apply (proj1 (init_weights_cleanup (C:=toy_collaborators) toy_model toy_built toy_initialised
                    ltac:(vm_compute; reflexivity))).
Defined.

(** Witness of C8: a domain that is not related. *)
Lemma other_domains_spec_witness :
  (list_to_set (get_other_domains toy_model "zebra") : gset string)
    = list_to_set ["photo"; "sketch"; "mask"].
Proof.
  destruct (other_domains_spec (F:=toy_framework) toy_model "zebra")
    as (_ & _ & _ & Hout).
  apply Hout. simpl.
  by rewrite !elem_of_cons, elem_of_nil; intros [|[|[|]]].
Defined.

End Witnesses.

(* ================================================================== *)
(** * Further properties of the catalog resolution *)

Section MMEdit_more.
Import MMEdit.

(** X1. For a model of the catalog and a version of its table the result
    has exactly three fields: the type of the entry, which no argument
    replaces; the explicit config if there is one, else the joined catalog
    path; the explicit checkpoint if there is one, else that of the
    catalog.  The two overrides do not touch each other's field. *)
Theorem resolve_named_result (name v : string) (cfgs : ModelEntry)
    (ve : VersionEntry) (config ckpt : option string) :
  model_dict !! name = Some cfgs →
  model_version cfgs !! v = Some ve →
  _get_inferencer_kwargs (Some name) (Some v) config ckpt
    = Ok (<["ckpt" := default (ver_ckpt ve) ckpt]>
            (<["config" := default (os_path_join "configs/" (ver_config ve))
                             config]>
               (<["type" := model_type cfgs]> ∅)),
          expected_warnings (Some name) config ckpt).
Proof.
  intros Hname Hv.
  pose proof (resolve_named _ _ _ _ Hname Hv) as Hkw.
  unfold _get_inferencer_kwargs. rewrite Hkw. simpl.
  set (kw0 := <["ckpt" := ver_ckpt ve]> _).
  assert (get_is_not_None kw0 "config" = true) as Ecfg
    by (apply bool_decide_eq_true_2; eexists; by simplify_map_eq).
  assert (∀ kw, get_is_not_None (<["config" := kw]> kw0) "ckpt" = true) as Eck
    by (intros; apply bool_decide_eq_true_2; eexists; by simplify_map_eq).
  assert (get_is_not_None kw0 "ckpt" = true) as Eck0
    by (apply bool_decide_eq_true_2; eexists; by simplify_map_eq).
  destruct config as [c|], ckpt as [k|];
    unfold override_ckpt, override_config, warn; simpl;
    rewrite ?Ecfg, ?Eck, ?Eck0; simpl;
    f_equal; f_equal; apply map_eq; intros f; subst kw0;
    destruct (decide (f = "ckpt")) as [->|];
    destruct (decide (f = "config")) as [->|];
    destruct (decide (f = "type")) as [->|];
    by simplify_map_eq.
Qed.

(** Witness of X1: [basicvsr] at version [b] with an explicit checkpoint. *)
Lemma resolve_named_result_witness :
  _get_inferencer_kwargs (Some "basicvsr") (Some "b") None (Some "my.pth")
    = Ok (<["ckpt" := "my.pth"]>
            (<["config" := "configs/basicvsr/basicvsr_2xb4_reds4.py"]>
               (<["type" := "video_restoration"]> ∅)),
          [UserWarning "basicvsr's default checkpoint is overridden by my.pth"]).
Proof.
  apply (resolve_named_result "basicvsr" "b"
           {| model_type := "video_restoration";
              model_version := list_to_map [
                ("a", {| ver_config := "basicvsr/basicvsr_2xb4_vimeo90k-bi.py";
                         ver_ckpt := "" |});
                ("b", {| ver_config := "basicvsr/basicvsr_2xb4_reds4.py";
                         ver_ckpt := "ckpt/video_restoration/basicvsr_reds4_20120409-0e599677.pth" |})] |}
           {| ver_config := "basicvsr/basicvsr_2xb4_reds4.py";
              ver_ckpt := "ckpt/video_restoration/basicvsr_reds4_20120409-0e599677.pth" |}
           None (Some "my.pth")); vm_compute; reflexivity.
Defined.

(** X2. Without a model name the call never raises and never warns,
    whatever the version (which is not looked at): the result has no
    [type], and [config] and [ckpt] are the explicit arguments, absent
    when they are not given. *)
Theorem resolve_unnamed_result (version config ckpt : option string) :
  ∃ kw,
    _get_inferencer_kwargs None version config ckpt = Ok (kw, []) ∧
    kw !! "type" = None ∧
    kw !! "config" = config ∧
    kw !! "ckpt" = ckpt ∧
    ∀ f, is_Some (kw !! f) → f = "config" ∨ f = "ckpt".
Proof.
  destruct config as [c|], ckpt as [k|]; eexists;
    (split; [reflexivity|]);
    repeat split; try (by simplify_map_eq);
    intros f [x Hf];
    destruct (decide (f = "ckpt")) as [->|]; auto;
    destruct (decide (f = "config")) as [->|]; auto;
    by simplify_map_eq.
Qed.

(** X3. For a model of the catalog and a version that its table does not
    have (or the version [None]) the call raises [KeyError] with that
    version, also when config and checkpoint are both given explicitly:
    the lookup comes before the overrides. *)
Theorem missing_version_raises (name : string) (cfgs : ModelEntry)
    (version config ckpt : option string) :
  model_dict !! name = Some cfgs →
  version ≫= (λ v, model_version cfgs !! v) = None →
  _get_inferencer_kwargs (Some name) version config ckpt
    = Raise (KeyError version).
Proof.
  intros Hname Hv.
  unfold _get_inferencer_kwargs, kwargs_of_model, get_model_config,
    version_getitem.
  rewrite Hname. simpl. by rewrite Hv.
Qed.

(** Witness of X3: [pix2pix] has no version [b]. *)
Lemma missing_version_raises_witness :
  _get_inferencer_kwargs (Some "pix2pix") (Some "b") (Some "c.py") (Some "k.pth")
    = Raise (KeyError (Some "b")).
Proof.
  apply (missing_version_raises "pix2pix"
           {| model_type := "translation";
              model_version := list_to_map [
                ("a", {| ver_config := "pix2pix/pix2pix_vanilla-unet-bn_1xb1-80kiters_facades.py";
                         ver_ckpt := "ckpt/translation/pix2pix_vanilla_unet_bn_1x1_80k_facades_20210902_170442-c0958d50.pth" |})] |});
    vm_compute; reflexivity.
Defined.


Ltac entry_cases H :=
  apply model_dict_lookup_items in H; unfold model_dict_items in H;
  repeat (apply elem_of_cons in H as [H|H]);
  [ injection H as -> -> .. | by apply elem_of_nil in H ].

Ltac label_cases H :=
  cbn in H;
  repeat (apply lookup_insert_Some in H as [[<- <-]|[_ H]]);
  [ .. | by rewrite lookup_empty in H ].

(** X4. The shape of the catalog: every entry has one of eight category
    tags and versions labelled [a] or [b]; the config path of a version is
    a [.py] file in the directory named after the model; its checkpoint is
    empty or a [.pth] file below [ckpt/<type>/]. *)
Theorem catalog_shape (name v : string) (cfgs : ModelEntry) (ve : VersionEntry) :
  model_dict !! name = Some cfgs →
  model_version cfgs !! v = Some ve →
  model_type cfgs ∈ ["conditional"; "unconditional"; "matting"; "inpainting";
                     "translation"; "restoration"; "video_restoration";
                     "video_interpolation"] ∧
  v ∈ ["a"; "b"] ∧
  startswith (ver_config ve) (name +:+ "/") = true ∧
  endswith (ver_config ve) ".py" = true ∧
  (ver_ckpt ve = "" ∨
   startswith (ver_ckpt ve) ("ckpt/" +:+ model_type cfgs +:+ "/") = true ∧
   endswith (ver_ckpt ve) ".pth" = true).
Proof.
  intros Hname Hv. entry_cases Hname; label_cases Hv;
    (split; [cbn [model_type]; set_solver|]);
    (split; [set_solver|]);
    (split; [vm_compute; reflexivity|]);
    (split; [vm_compute; reflexivity|]);
    first [ left; reflexivity | right; split; vm_compute; reflexivity ].
Qed.

(** Witness of X4: version [a] of [gca]. *)
Lemma catalog_shape_witness :
  startswith "gca/gca_r34_4xb10-200k_comp1k.py" "gca/" = true.
Proof.
  apply (catalog_shape "gca" "a"
           {| model_type := "matting";
              model_version := list_to_map [
                ("a", {| ver_config := "gca/gca_r34_4xb10-200k_comp1k.py";
                         ver_ckpt := "ckpt/matting/gca/gca_r34_4x10_200k_comp1k_SAD-33.38_20220615-65595f39.pth" |})] |}
           {| ver_config := "gca/gca_r34_4xb10-200k_comp1k.py";
              ver_ckpt := "ckpt/matting/gca/gca_r34_4x10_200k_comp1k_SAD-33.38_20220615-65595f39.pth" |});
    vm_compute; reflexivity.
Defined.

End MMEdit_more.

(* ================================================================== *)
(** * Further properties of the translation model *)

Section Construction_more.
Import BaseTranslationModel.
Context {F : Framework} {C : Collaborators}.

(** The constructor of the base class on a new object: the object has the
    data preprocessor as its only child; the objects of the store before
    are as they were. *)
Lemma BaseModel_init_layout (dp : oid) (w : World) :
  ∃ w1,
    BaseModel___init__ (length (heap w)) dp (alloc new_module w).2 = Ok w1 ∧
    heap w1 = heap w ++ [set_modules [("data_preprocessor", dp)] new_module] ∧
    maps w1 = maps w.
Proof.
  unfold BaseModel___init__, alloc, update_obj. simpl.
  rewrite lookup_app_r, Nat.sub_diag by done. simpl.
  erewrite setattr_module_ok; last first.
  { simpl. rewrite list_lookup_alter_eq, lookup_app_r, Nat.sub_diag by done.
    done. }
  eexists. split; [done|]. split; [|done]. simpl.
  apply list_eq. intros i.
  destruct (decide (i = length (heap w))) as [->|Hi].
  - rewrite !list_lookup_alter_eq, !lookup_app_r, Nat.sub_diag by done. done.
  - rewrite !list_lookup_alter_ne by done.
    destruct (decide (i < length (heap w))).
    + by rewrite !lookup_app_l.
    + rewrite !lookup_app_r by lia.
      destruct (i - length (heap w)) as [|k] eqn:Hk; [lia | done].
Qed.

Lemma instantiate_length (bp : Blueprint) (w : World) :
  (instantiate bp w).1 = length (heap w) ∧
  length (heap w) < length (heap (instantiate bp w).2) ∧
  maps (instantiate bp w).2 = maps w.
Proof.
  simpl. split; [done|]. split; [|done].
  rewrite length_app. simpl. lia.
Qed.

(** One round of the building loop, in full: it returns exactly when the
    registry builds and the container takes the name; the new module is a
    new object. *)
Lemma build_domain_layout (self c : oid) (attr : string) (cfg : Cfg) (d : string)
    (w : World) (sobj cobj : ModuleObj) :
  heap w !! self = Some sobj →
  alist_get attr (_modules sobj) = Some c →
  heap w !! c = Some cobj →
  (is_ok (MODELS_build cfg) && module_name_ok d
     = is_ok (build_domain self attr cfg d w)) ∧
  ∀ w', build_domain self attr cfg d w = Ok w' →
    maps w' = maps w ∧
    length (heap w) < length (heap w') ∧
    (∀ o obj, o ≠ c → heap w !! o = Some obj → heap w' !! o = Some obj) ∧
    heap w' !! c
      = Some (set_modules (alist_set d (length (heap w)) (_modules cobj)) cobj).
Proof.
  intros Hself Hattr Hc. unfold build_domain.
  destruct (MODELS_build cfg) as [bp|]; [|done].
  cbv beta iota delta [mbind result_bind].
  pose proof (instantiate_lookup bp w) as Hext.
  destruct (instantiate_length bp w) as (Hbuilt & Hlen & Hmaps).
  destruct (instantiate bp w) as [built w1]. simpl in Hext, Hbuilt, Hlen, Hmaps.
  subst built.
  unfold getattr_module, get_obj.
  rewrite (Hext _ _ Hself). simpl. rewrite Hattr. simpl.
  unfold ModuleDict_setitem, update_obj.
  destruct (module_name_ok d); [|done].
  rewrite (Hext _ _ Hc). split; [done|].
  intros w' [= <-]. simpl. split; [done|].
  split; [by rewrite length_alter|]. split.
  - intros o obj Hne Ho.
    rewrite list_lookup_alter_ne by done. by apply Hext.
  - by rewrite list_lookup_alter_eq, (Hext _ _ Hc).
Qed.

(** The building loop, in full.  It returns exactly when the registry
    builds (if there is a domain at all) and the container takes every
    name.  Afterwards the container has, for each domain of the loop, a
    module that is a new object, different domains have different modules,
    and the other entries of the container and the other objects of the
    store are as before. *)
Lemma build_loop_layout (self c : oid) (attr : string) (cfg : Cfg)
    (ds : list string) (w : World) (sobj cobj : ModuleObj) :
  c ≠ self →
  heap w !! self = Some sobj →
  alist_get attr (_modules sobj) = Some c →
  heap w !! c = Some cobj →
  (bool_decide (ds = []) || is_ok (MODELS_build cfg)) && forallb module_name_ok ds
    = is_ok (for_each (build_domain self attr cfg) ds w) ∧
  ∀ w', for_each (build_domain self attr cfg) ds w = Ok w' →
    maps w' = maps w ∧
    length (heap w) ≤ length (heap w') ∧
    (∀ o obj, o ≠ c → heap w !! o = Some obj → heap w' !! o = Some obj) ∧
    ∃ cobj',
      heap w' !! c = Some cobj' ∧
      is_wrapper cobj' = is_wrapper cobj ∧
      (∀ d, d ∉ ds →
         alist_get d (_modules cobj') = alist_get d (_modules cobj)) ∧
      (∀ d, d ∈ ds →
         ∃ g, alist_get d (_modules cobj') = Some g ∧
              length (heap w) ≤ g < length (heap w')) ∧
      (∀ d1 d2 g, d1 ∈ ds → d2 ∈ ds →
         alist_get d1 (_modules cobj') = Some g →
         alist_get d2 (_modules cobj') = Some g → d1 = d2).
Proof.
  intros Hne. revert w cobj.
  induction ds as [|d ds IH]; intros w cobj Hself Hattr Hc.
  { simpl. split; [done|]. intros w' [= <-]. split; [done|]. split; [done|].
    split; [done|]. exists cobj. split; [done|]. split; [done|].
    split; [done|]. split; intros *; by rewrite elem_of_nil. }
  destruct (build_domain_layout _ _ _ cfg d _ _ _ Hself Hattr Hc)
    as [Hok Hstep].
  cbn [for_each forallb]. rewrite bool_decide_eq_false_2 by done.
  destruct (build_domain self attr cfg d w) as [w1|] eqn:Hw1; simpl in *.
  - destruct (Hstep w1 eq_refl) as (Hmaps1 & Hlen1 & Hkeep1 & Hc1).
    destruct (IH w1 _ (Hkeep1 _ _ (not_eq_sym Hne) Hself) Hattr Hc1)
      as [Hok' Hloop].
    apply andb_true_iff in Hok as [Hbuild Hname].
    rewrite Hbuild, Hname in *. rewrite orb_true_r in Hok'. simpl in *.
    split; [done|].
    intros w' Hw'.
    destruct (Hloop w' Hw')
      as (Hmaps & Hlen & Hkeep & cobj' & Hc' & Hwrap & Hout & Hin & Hinj).
    simpl in Hout, Hin.
    split; [congruence|]. split; [lia|]. split; [by eauto|].
    exists cobj'. split; [done|]. split; [done|].
    assert (∀ d', d' ∉ ds → d' = d →
              alist_get d' (_modules cobj') = Some (length (heap w))) as Hhead.
    { intros d' Hd' ->. rewrite (Hout d Hd'), alist_get_set.
      by rewrite bool_decide_eq_true_2. }
    split; [|split].
    + intros d' Hd'. apply not_elem_of_cons in Hd' as [Hdd Hd'].
      rewrite (Hout d' Hd'), alist_get_set.
      by rewrite bool_decide_eq_false_2.
    + intros d' Hd'.
      destruct (decide (d' ∈ ds)) as [Hds|Hds].
      * destruct (Hin d' Hds) as (g & Hg & Hrange). exists g. split; [done | lia].
      * apply elem_of_cons in Hd' as [->|?]; [|done].
        eexists. split; [by apply Hhead | lia].
    + intros d1 d2 g Hd1 Hd2 Hg1 Hg2.
      destruct (decide (d1 ∈ ds)) as [Hds1|Hds1],
               (decide (d2 ∈ ds)) as [Hds2|Hds2].
      * by eapply Hinj.
      * apply elem_of_cons in Hd2 as [->|?]; [|done].
        rewrite (Hhead d Hds2 eq_refl) in Hg2. injection Hg2 as <-.
        destruct (Hin d1 Hds1) as (g & Hg & Hrange).
        rewrite Hg in Hg1. injection Hg1 as ->. lia.
      * apply elem_of_cons in Hd1 as [->|?]; [|done].
        rewrite (Hhead d Hds1 eq_refl) in Hg1. injection Hg1 as <-.
        destruct (Hin d2 Hds2) as (g & Hg & Hrange).
        rewrite Hg in Hg2. injection Hg2 as ->. lia.
      * apply elem_of_cons in Hd1 as [->|?]; [|done].
        apply elem_of_cons in Hd2 as [->|?]; [|done]. done.
  - split; [|done]. by rewrite andb_assoc, Hok.
Qed.

(** The object [c] is a container that is not wrapped and has a module
    exactly for the domains [ds]; the modules are objects from [lo] up to
    [hi], and different domains have different modules. *)
Definition domain_modules (w : World) (c : oid) (ds : list string)
    (lo hi : nat) : Prop :=
  ∃ cobj,
    heap w !! c = Some cobj ∧
    is_wrapper cobj = false ∧
    (∀ d, is_Some (alist_get d (_modules cobj)) ↔ d ∈ ds) ∧
    (∀ d g, alist_get d (_modules cobj) = Some g → lo ≤ g < hi) ∧
    (∀ d1 d2 g, alist_get d1 (_modules cobj) = Some g →
                alist_get d2 (_modules cobj) = Some g → d1 = d2).

Lemma domain_modules_keep (w w' : World) (c : oid) (ds : list string)
    (lo hi : nat) :
  (∀ obj, heap w !! c = Some obj → heap w' !! c = Some obj) →
  domain_modules w c ds lo hi → domain_modules w' c ds lo hi.
Proof. intros Hkeep (cobj & Hc & Hrest). exists cobj. by eauto. Qed.

(** The building loop on a new container. *)
Lemma build_loop_new_container (self c : oid) (attr : string) (cfg : Cfg)
    (ds : list string) (w w' : World) (sobj : ModuleObj) :
  c ≠ self →
  heap w !! self = Some sobj →
  alist_get attr (_modules sobj) = Some c →
  heap w !! c = Some new_module →
  for_each (build_domain self attr cfg) ds w = Ok w' →
  domain_modules w' c ds (length (heap w)) (length (heap w')).
Proof.
  intros Hne Hself Hattr Hc Hloop.
  destruct (build_loop_layout _ _ _ cfg ds _ _ _ Hne Hself Hattr Hc) as [_ Hlay].
  destruct (Hlay w' Hloop)
    as (_ & _ & _ & cobj' & Hc' & Hwrap & Hout & Hin & Hinj).
  assert (∀ d g, alist_get d (_modules cobj') = Some g → d ∈ ds) as Hkeys.
  { intros d g Hg. destruct (decide (d ∈ ds)) as [|Hd]; [done|].
    by rewrite (Hout d Hd) in Hg. }
  exists cobj'. split; [done|]. split; [done|]. split; [|split].
  - intros d. split; [intros [g Hg]; by eapply Hkeys|].
    intros Hd. destruct (Hin d Hd) as (g & Hg & _). by exists g.
  - intros d g Hg. destruct (Hin d (Hkeys _ _ Hg)) as (g' & Hg' & Hrange).
    rewrite Hg in Hg'. by injection Hg' as <-.
  - intros d1 d2 g Hg1 Hg2. by eapply Hinj; eauto.
Qed.

(** The store [w] holds the model [m] as the construction from the store
    [w0] leaves it: the model is a new object; the objects and the tracking
    maps of [w0] are as they were; the model has the data preprocessor and
    the container of generators as children, and the container of
    discriminators if [with_disc]; all modules of the containers are new
    objects, those of the discriminators after those of the generators. *)
Definition model_layout (w0 : World) (dp : oid) (with_disc : bool)
    (m : Model) (w : World) : Prop :=
  self_id m = length (heap w0) ∧
  maps w = maps w0 ∧
  (∀ o obj, heap w0 !! o = Some obj → heap w !! o = Some obj) ∧
  ∃ sobj gens mid,
    heap w !! self_id m = Some sobj ∧
    alist_get "data_preprocessor" (_modules sobj) = Some dp ∧
    alist_get "generators" (_modules sobj) = Some gens ∧
    self_id m < gens ∧
    domain_modules w gens (_reachable_domains m) (S gens) mid ∧
    if with_disc
    then ∃ discs,
           alist_get "discriminators" (_modules sobj) = Some discs ∧
           mid ≤ discs ∧
           domain_modules w discs (_reachable_domains m) (S discs)
             (length (heap w))
    else alist_get "discriminators" (_modules sobj) = None ∧
         mid ≤ length (heap w).

Lemma construct_full (cls : string) (generator : Cfg)
    (discriminator : option Cfg) (default_domain : string)
    (reachable_domains related_domains : list string) (data_preprocessor : oid)
    (discriminator_steps disc_init_steps : Z) (real_img_key : string)
    (loss_config : option Cfg) (w : World) :
  let built :=
    construct cls generator discriminator default_domain reachable_domains
      related_domains data_preprocessor discriminator_steps disc_init_steps
      real_img_key loss_config w in
  is_ok built
    = bool_decide (default_domain ∈ reachable_domains)
      && bool_decide ((list_to_set reachable_domains : gset string)
                        ⊆ list_to_set related_domains)
      && is_ok (MODELS_build generator)
      && forallb module_name_ok reachable_domains
      && match discriminator with
         | Some disc_cfg => is_ok (MODELS_build disc_cfg)
         | None => true
         end ∧
  ∀ m w', built = Ok (m, w') →
    m = {| self_id := length (heap w);
           class_name := cls;
           _default_domain := default_domain;
           _reachable_domains := reachable_domains;
           _related_domains := related_domains;
           discriminator_steps := discriminator_steps;
           disc_init_steps := disc_init_steps;
           real_img_key := real_img_key;
           _gen_cfg := generator;
           _disc_cfg := discriminator;
           loss_config := default empty_dict loss_config |} ∧
    model_layout w data_preprocessor (bool_decide (is_Some discriminator)) m w'.
Proof.
  intros built. subst built. unfold construct.
  destruct (BaseModel_init_layout data_preprocessor w)
    as (w1 & Hbase & Hheap1 & Hmaps1).
  unfold alloc in *. simpl in Hbase. cbv beta iota. unfold __init__.
  rewrite Hbase. cbv beta iota delta [mbind result_bind].
  unfold py_assert.
  destruct (bool_decide (default_domain ∈ reachable_domains)) eqn:Hdef; [|done].
  apply bool_decide_eq_true_1 in Hdef.
  destruct (bool_decide (_ ⊆ _)); [|done]. simpl.
  set (self := length (heap w)) in *.
  set (sobj1 := set_modules [("data_preprocessor", data_preprocessor)] new_module)
    in *.
  assert (heap w1 !! self = Some sobj1) as Hself1.
  { rewrite Hheap1. subst self. by rewrite lookup_app_r, Nat.sub_diag. }
  assert (length (heap w1) = S self) as Hlen1.
  { rewrite Hheap1, length_app. simpl. lia. }
  assert (∀ o obj, heap w !! o = Some obj → heap w1 !! o = Some obj) as Hold1.
  { intros o obj Ho. rewrite Hheap1. by apply lookup_app_l_Some. }
  set (gens := length (heap w1)).
  assert (gens ≠ self) as Hne by (subst gens; lia).
  erewrite setattr_module_ok; last first.
  { simpl. by apply lookup_app_l_Some. }
  set (w2 := with_heap _ _).
  set (sobj2 := set_modules (alist_set "generators" gens (_modules sobj1)) sobj1).
  assert (heap w2 !! self = Some sobj2) as Hself2.
  { subst w2. simpl. rewrite list_lookup_alter_eq.
    by rewrite (lookup_app_l_Some _ _ _ _ Hself1). }
  assert (heap w2 !! gens = Some new_module) as Hgens2.
  { subst w2. simpl. rewrite list_lookup_alter_ne by done.
    subst gens. by rewrite lookup_app_r, Nat.sub_diag. }
  assert (length (heap w2) = S gens) as Hlen2.
  { subst w2. simpl. rewrite length_alter, length_app. simpl. lia. }
  assert (∀ o obj, heap w !! o = Some obj → heap w2 !! o = Some obj) as Hold2.
  { intros o obj Ho. subst w2. simpl.
    rewrite list_lookup_alter_ne
      by (apply lookup_lt_Some in Ho; subst self; lia).
    apply lookup_app_l_Some. by apply Hold1. }
  assert (alist_get "generators" (_modules sobj2) = Some gens) as Hattr2 by done.
  destruct (build_loop_layout self gens "generators" generator
              reachable_domains w2 sobj2 new_module Hne Hself2 Hattr2 Hgens2)
    as [Hok1 Hlay1].
  rewrite bool_decide_eq_false_2 in Hok1
    by (intros ->; by apply elem_of_nil in Hdef).
  simpl in Hok1. rewrite Hok1.
  destruct (for_each _ reachable_domains w2) as [w3|] eqn:Hloop1; [|done].
  simpl.
  destruct (Hlay1 w3 eq_refl) as (Hmaps3 & Hlen3 & Hkeep3 & _).
  pose proof (build_loop_new_container _ _ _ _ _ _ _ _ Hne Hself2 Hattr2
                Hgens2 Hloop1) as Hdm3.
  rewrite Hlen2 in Hdm3.
  pose proof (Hkeep3 _ _ (not_eq_sym Hne) Hself2) as Hself3.
  assert (∀ o obj, heap w !! o = Some obj → heap w3 !! o = Some obj) as Hold3.
  { intros o obj Ho. apply Hkeep3; [|by apply Hold2].
    apply lookup_lt_Some in Ho. subst gens self. lia. }
  destruct discriminator as [disc_cfg|].
  - set (discs := length (heap w3)).
    assert (discs ≠ self) as Hds
      by (subst discs; apply lookup_lt_Some in Hself3; lia).
    assert (discs ≠ gens) as Hdg
      by (subst discs; destruct Hdm3 as (? & ?%lookup_lt_Some & _); lia).
    erewrite setattr_module_ok; last first.
    { simpl. by apply lookup_app_l_Some. }
    set (w4 := with_heap _ _).
    set (sobj4 := set_modules (alist_set "discriminators" discs (_modules sobj2))
                    sobj2).
    assert (heap w4 !! self = Some sobj4) as Hself4.
    { subst w4. simpl. rewrite list_lookup_alter_eq.
      by rewrite (lookup_app_l_Some _ _ _ _ Hself3). }
    assert (heap w4 !! discs = Some new_module) as Hdiscs4.
    { subst w4. simpl. rewrite list_lookup_alter_ne by done.
      subst discs. by rewrite lookup_app_r, Nat.sub_diag. }
    assert (length (heap w4) = S discs) as Hlen4.
    { subst w4. simpl. rewrite length_alter, length_app. simpl. lia. }
    assert (∀ o obj, o ≠ self → heap w3 !! o = Some obj →
                     heap w4 !! o = Some obj) as Hkeep4.
    { intros o obj Ho Hobj. subst w4. simpl.
      rewrite list_lookup_alter_ne by done. by apply lookup_app_l_Some. }
    assert (alist_get "discriminators" (_modules sobj4) = Some discs)
      as Hattr4 by done.
    destruct (build_loop_layout self discs "discriminators" disc_cfg
                reachable_domains w4 sobj4 new_module Hds Hself4 Hattr4 Hdiscs4)
      as [Hok2 Hlay2].
    rewrite bool_decide_eq_false_2 in Hok2
      by (intros ->; by apply elem_of_nil in Hdef).
    simpl in Hok2.
    destruct (for_each _ reachable_domains w4) as [w5|] eqn:Hloop2; simpl.
    + apply andb_true_iff in Hok2 as [Hb2 _].
      split; [by rewrite Hb2|]. intros m w' [= <- <-]. split; [done|].
      destruct (Hlay2 w5 eq_refl) as (Hmaps5 & Hlen5 & Hkeep5 & _).
      pose proof (build_loop_new_container _ _ _ _ _ _ _ _ Hds Hself4 Hattr4
                    Hdiscs4 Hloop2) as Hdm5.
      rewrite Hlen4 in Hdm5.
      split; [done|]. split; [simpl in *; congruence|]. split.
      { intros o obj Ho. apply Hkeep5, Hkeep4; [| |by apply Hold3].
        - apply lookup_lt_Some in Ho. apply lookup_lt_Some in Hself3.
          subst discs self. lia.
        - apply lookup_lt_Some in Ho. subst self. lia. }
      exists sobj4, gens, discs. simpl.
      split; [by apply Hkeep5|]. split; [done|]. split; [done|].
      split; [subst gens self; lia|]. split.
      { eapply domain_modules_keep; [|exact Hdm3].
        intros obj Hobj. apply Hkeep5; [done|]. by apply Hkeep4. }
      exists discs. by eauto.
    + split; [|done].
      apply andb_true_iff in Hok1 as [_ Hnames]. rewrite Hnames in Hok2.
      by destruct (is_ok (MODELS_build disc_cfg)).
  - simpl. split; [done|].
    intros m w' [= <- <-]. split; [done|].
    split; [done|]. split; [simpl in *; congruence|]. split; [done|].
    exists sobj2, gens, (length (heap w3)). simpl.
    split; [done|]. split; [done|]. split; [done|].
    split; [subst gens self; lia|]. split; [done|].
    done.
Qed.

(** The lookups on a store where the containers are children of the model
    and are not wrapped. *)
Lemma target_generator_eq (m : Model) (w : World) (sobj gobj : ModuleObj)
    (gens : oid) (d : string) :
  heap w !! self_id m = Some sobj →
  alist_get "generators" (_modules sobj) = Some gens →
  heap w !! gens = Some gobj →
  is_wrapper gobj = false →
  is_domain_reachable m d = true →
  getattr_module (self_id m) "generators" w = Ok gens ∧
  ModuleDict_getitem gens d w
    = match alist_get d (_modules gobj) with
      | Some g => Ok g
      | None => Raise (KeyError (Some d))
      end ∧
  _get_target_generator m d w = ModuleDict_getitem gens d w.
Proof.
  intros Hself Hgens Hgobj Hwrap Hd.
  assert (getattr_module (self_id m) "generators" w = Ok gens) as Hattr.
  { unfold getattr_module, get_obj. rewrite Hself. simpl. by rewrite Hgens. }
  split; [done|]. split.
  - unfold ModuleDict_getitem, get_obj. by rewrite Hgobj.
  - unfold _get_target_generator, py_assert. rewrite Hd. simpl.
    rewrite Hattr. simpl. unfold get_obj. rewrite Hgobj. simpl.
    by rewrite Hwrap.
Qed.

Lemma target_discriminator_eq (m : Model) (w : World) (sobj dobj : ModuleObj)
    (discs : oid) (d : string) :
  heap w !! self_id m = Some sobj →
  alist_get "discriminators" (_modules sobj) = Some discs →
  heap w !! discs = Some dobj →
  is_wrapper dobj = false →
  is_domain_reachable m d = true →
  getattr_optional (self_id m) "discriminators" w = Ok (Some discs) ∧
  ModuleDict_getitem discs d w
    = match alist_get d (_modules dobj) with
      | Some g => Ok g
      | None => Raise (KeyError (Some d))
      end ∧
  _get_target_discriminator m d w = ModuleDict_getitem discs d w.
Proof.
  intros Hself Hdiscs Hdobj Hwrap Hd.
  assert (getattr_optional (self_id m) "discriminators" w = Ok (Some discs))
    as Hattr.
  { unfold getattr_optional, get_obj. rewrite Hself. simpl. by rewrite Hdiscs. }
  split; [done|]. split.
  - unfold ModuleDict_getitem, get_obj. by rewrite Hdobj.
  - unfold _get_target_discriminator, py_assert. rewrite Hd. simpl.
    rewrite Hattr. simpl. unfold get_obj. rewrite Hdobj. simpl.
    by rewrite Hwrap.
Qed.

End Construction_more.

(** ** A constructed model *)

Section Constructed.
Import BaseTranslationModel.
Context {F : Framework} {C : Collaborators}.
Context (cls : string) (generator : Cfg) (discriminator : option Cfg)
  (default_domain : string) (reachable_domains related_domains : list string)
  (data_preprocessor : oid) (discriminator_steps disc_init_steps : Z)
  (real_img_key : string) (loss_config : option Cfg) (w0 w : World) (m : Model).
Hypothesis Hbuilt :
  construct cls generator discriminator default_domain reachable_domains
    related_domains data_preprocessor discriminator_steps disc_init_steps
    real_img_key loss_config w0 = Ok (m, w).

Lemma built_reachable : _reachable_domains m = reachable_domains.
Proof.
  destruct (construct_full cls generator discriminator default_domain
              reachable_domains related_domains data_preprocessor
              discriminator_steps disc_init_steps real_img_key loss_config w0)
    as [_ Hlay].
  by destruct (Hlay m w Hbuilt) as [-> _].
Qed.

Lemma built_layout :
  model_layout w0 data_preprocessor (bool_decide (is_Some discriminator)) m w.
Proof.
  destruct (construct_full cls generator discriminator default_domain
              reachable_domains related_domains data_preprocessor
              discriminator_steps disc_init_steps real_img_key loss_config w0)
    as [_ Hlay].
  by destruct (Hlay m w Hbuilt) as [_ ?].
Qed.

Lemma built_subset :
  default_domain ∈ reachable_domains ∧
  ∀ d, d ∈ reachable_domains → d ∈ related_domains.
Proof.
  destruct (construct_full cls generator discriminator default_domain
              reachable_domains related_domains data_preprocessor
              discriminator_steps disc_init_steps real_img_key loss_config w0)
    as [Hok _].
  cbv zeta in Hok. rewrite Hbuilt in Hok. simpl in Hok. symmetry in Hok.
  repeat (apply andb_true_iff in Hok as [Hok ?]).
  apply bool_decide_eq_true_1 in Hok.
  split; [done|]. intros d Hd.
  match goal with Hs : bool_decide (_ ⊆ _) = true |- _ =>
    apply bool_decide_eq_true_1 in Hs;
    apply (elem_of_list_to_set (C:=gset string)), Hs;
    by apply elem_of_list_to_set
  end.
Qed.

(** The generator lookup on the constructed model, for every domain. *)
Lemma built_generator_lookup :
  ∃ gens gobj,
    self_id m < gens ∧
    heap w !! gens = Some gobj ∧
    (∀ d, is_Some (alist_get d (_modules gobj)) ↔ d ∈ reachable_domains) ∧
    (∀ d g, alist_get d (_modules gobj) = Some g → gens < g < length (heap w)) ∧
    (∀ d1 d2 g, alist_get d1 (_modules gobj) = Some g →
                alist_get d2 (_modules gobj) = Some g → d1 = d2) ∧
    ∀ d, _get_target_generator m d w
         = if is_domain_reachable m d
           then match alist_get d (_modules gobj) with
                | Some g => Ok g
                | None => Raise (KeyError (Some d))
                end
           else Raise (AssertionError (Some (not_reachable_msg m d))).
Proof.
  destruct built_layout
    as (_ & _ & _ & sobj & gens & mid & Hself & _ & Hgens & Hlt & Hdm & Hdisc).
  rewrite built_reachable in *.
  destruct Hdm as (gobj & Hgobj & Hwrap & Hkeys & Hrange & Hinj).
  assert (mid ≤ length (heap w)) as Hmid.
  { destruct (bool_decide _); [|by destruct Hdisc].
    destruct Hdisc as (discs & _ & Hle & dobj & Hd%lookup_lt_Some & _). lia. }
  exists gens, gobj. split; [done|]. split; [done|]. split; [done|].
  split; [intros d g Hg; specialize (Hrange d g Hg); lia|].
  split; [done|].
  intros d. destruct (is_domain_reachable m d) eqn:Hd.
  - destruct (target_generator_eq m w sobj gobj gens d) as (_ & Hitem & ->);
      done.
  - unfold _get_target_generator, py_assert. by rewrite Hd.
Qed.

(** X5. On a constructed model the lookup of a generator returns exactly
    for the reachable domains; for such a domain, [translation] calls the
    module that the lookup returns, and [forward_train] wraps what that
    call returns, with the input image as source. *)
Theorem generator_for_each_domain :
  (∀ d, is_ok (_get_target_generator m d w) = is_domain_reachable m d) ∧
  (∀ d, d ∈ reachable_domains →
     ∃ g,
       _get_target_generator m d w = Ok g ∧
       ∀ image kwargs,
         translation m image (Some d) kwargs w = module_call g image kwargs w ∧
         forward_train m image (Some d) kwargs w
           = (r ← module_call g image kwargs w;
              Ok ({| source := image; target := r.1 |}, r.2))).
Proof.
  destruct built_generator_lookup
    as (gens & gobj & _ & _ & Hkeys & _ & _ & Hlookup).
  assert (∀ d, d ∈ reachable_domains →
            ∃ g, _get_target_generator m d w = Ok g) as Hsome.
  { intros d Hd. rewrite Hlookup. unfold is_domain_reachable.
    rewrite bool_decide_eq_true_2 by by rewrite built_reachable.
    destruct (proj2 (Hkeys d) Hd) as [g ->]. by exists g. }
  split.
  - intros d. destruct (is_domain_reachable m d) eqn:Hd.
    + apply bool_decide_eq_true_1 in Hd. rewrite built_reachable in Hd.
      by destruct (Hsome d Hd) as [g ->].
    + rewrite Hlookup, Hd. done.
  - intros d Hd. destruct (Hsome d Hd) as [g Hg]. exists g. split; [done|].
    intros image kwargs. unfold forward_train, translation. simpl.
    rewrite Hg. simpl. split; [done|].
    by destruct (module_call g image kwargs w) as [[t w']|].
Qed.

(** The discriminator lookup on the constructed model. *)
Lemma built_discriminator_lookup :
  match discriminator with
  | Some _ =>
      ∃ gens discs dobj,
        getattr_module (self_id m) "generators" w = Ok gens ∧
        getattr_optional (self_id m) "discriminators" w = Ok (Some discs) ∧
        heap w !! discs = Some dobj ∧
        self_id m < gens < discs ∧
        (∀ d g, _get_target_generator m d w = Ok g → gens < g < discs) ∧
        (∀ d, is_Some (alist_get d (_modules dobj)) ↔ d ∈ reachable_domains) ∧
        (∀ d g, alist_get d (_modules dobj) = Some g →
                discs < g < length (heap w)) ∧
        (∀ d1 d2 g, alist_get d1 (_modules dobj) = Some g →
                    alist_get d2 (_modules dobj) = Some g → d1 = d2) ∧
        ∀ d, _get_target_discriminator m d w
             = if is_domain_reachable m d
               then match alist_get d (_modules dobj) with
                    | Some g => Ok g
                    | None => Raise (KeyError (Some d))
                    end
               else Raise (AssertionError (Some (not_reachable_msg m d)))
  | None =>
      getattr_optional (self_id m) "discriminators" w = Ok None ∧
      ∀ d, _get_target_discriminator m d w
           = if is_domain_reachable m d
             then Raise (TypeError "'NoneType' object is not subscriptable")
             else Raise (AssertionError (Some (not_reachable_msg m d)))
  end.
Proof.
  destruct built_layout
    as (_ & _ & _ & sobj & gens & mid & Hself & _ & Hgens & Hlt & Hdm & Hdisc).
  rewrite built_reachable in *.
  pose proof (proj1 built_subset) as Hdefault.
  destruct discriminator as [disc_cfg|]; simpl in Hdisc.
  - destruct Hdisc as (discs & Hdiscs & Hle & dobj & Hdobj & Hwrap & Hkeys
                       & Hrange & Hinj).
    destruct Hdm as (gobj & Hgobj & Hgwrap & Hgkeys & Hgrange & _).
    exists gens, discs, dobj.
    split.
    { unfold getattr_module, get_obj. rewrite Hself. simpl. by rewrite Hgens. }
    split.
    { unfold getattr_optional, get_obj. rewrite Hself. simpl. by rewrite Hdiscs. }
    split; [done|]. split.
    { destruct (proj2 (Hgkeys default_domain) Hdefault) as [g0 Hg0].
      specialize (Hgrange _ _ Hg0). lia. }
    split.
    { intros d g Hg.
      destruct (is_domain_reachable m d) eqn:Hd.
      - destruct (target_generator_eq m w sobj gobj gens d)
          as (_ & Hitem & Heq); try done.
        rewrite Heq, Hitem in Hg.
        destruct (alist_get d (_modules gobj)) as [g'|] eqn:Hg'; [|done].
        injection Hg as <-. specialize (Hgrange d g' Hg'). lia.
      - unfold _get_target_generator, py_assert in Hg. by rewrite Hd in Hg. }
    split; [done|]. split; [done|]. split; [done|].
    intros d. destruct (is_domain_reachable m d) eqn:Hd.
    + destruct (target_discriminator_eq m w sobj dobj discs d)
        as (_ & Hitem & ->); done.
    + unfold _get_target_discriminator, py_assert. by rewrite Hd.
  - destruct Hdisc as [Hnone _].
    assert (getattr_optional (self_id m) "discriminators" w = Ok None) as Hattr.
    { unfold getattr_optional, get_obj. rewrite Hself. simpl. by rewrite Hnone. }
    split; [done|].
    intros d. unfold _get_target_discriminator, py_assert.
    destruct (is_domain_reachable m d); [|done]. simpl.
    by rewrite Hattr.
Qed.

(** X6. On a constructed model that has discriminators, the lookup of a
    discriminator returns exactly for the reachable domains.  On one
    constructed without a discriminator, the lookup for a reachable domain
    raises the [TypeError] of subscripting [None]; the reachability
    assertion still comes first for the other domains. *)
Theorem discriminator_for_each_domain :
  match discriminator with
  | Some _ =>
      ∀ d, is_ok (_get_target_discriminator m d w) = is_domain_reachable m d
  | None =>
      ∀ d, _get_target_discriminator m d w
           = if is_domain_reachable m d
             then Raise (TypeError "'NoneType' object is not subscriptable")
             else Raise (AssertionError (Some (not_reachable_msg m d)))
  end.
Proof.
  pose proof built_discriminator_lookup as Hlookup.
  pose proof built_reachable as Hreach.
  destruct discriminator as [disc_cfg|]; [|by destruct Hlookup].
  destruct Hlookup
    as (gens & discs & dobj & _ & _ & _ & _ & _ & Hkeys & _ & _ & Heq).
  intros d. rewrite Heq. destruct (is_domain_reachable m d) eqn:Hd; [|done].
  apply bool_decide_eq_true_1 in Hd. rewrite Hreach in Hd.
  by destruct (proj2 (Hkeys d) Hd) as [g ->].
Qed.

(** X7. Every domain has modules of its own: on a constructed model the
    generators of two different domains are different objects, so are the
    discriminators, and no generator is a discriminator.  All of them are
    objects that the construction made: none is the model or an object of
    the store before. *)
Theorem separate_instances :
  (∀ d1 d2 g, _get_target_generator m d1 w = Ok g →
              _get_target_generator m d2 w = Ok g → d1 = d2) ∧
  (∀ d1 d2 g, _get_target_discriminator m d1 w = Ok g →
              _get_target_discriminator m d2 w = Ok g → d1 = d2) ∧
  (∀ d1 d2 g1 g2, _get_target_generator m d1 w = Ok g1 →
                  _get_target_discriminator m d2 w = Ok g2 → g1 ≠ g2) ∧
  (∀ d g, _get_target_generator m d w = Ok g ∨
          _get_target_discriminator m d w = Ok g →
          g ≠ self_id m ∧ heap w0 !! g = None ∧ is_Some (heap w !! g)).
Proof.
  destruct built_generator_lookup
    as (gens & gobj & Hlt & _ & _ & Hrange & Hinj & Heq).
  destruct built_layout as (Hselfid & _).
  assert (∀ d g, _get_target_generator m d w = Ok g →
            alist_get d (_modules gobj) = Some g) as Hgen.
  { intros d g. rewrite Heq. destruct (is_domain_reachable m d); [|done].
    destruct (alist_get d (_modules gobj)); [|done]. by intros [= ->]. }
  pose proof built_discriminator_lookup as Hdl.
  assert (∀ g, self_id m < g < length (heap w) →
            g ≠ self_id m ∧ heap w0 !! g = None ∧ is_Some (heap w !! g)) as Hnew.
  { intros g Hg. split; [lia|]. split.
    - apply lookup_ge_None. lia.
    - apply lookup_lt_is_Some. lia. }
  destruct discriminator as [disc_cfg|].
  - destruct Hdl as (gens' & discs & dobj & Hgens' & _ & _ & Hord & Hbelow & _
                     & Hdrange & Hdinj & Hdeq).
    assert (∀ d g, _get_target_discriminator m d w = Ok g →
              alist_get d (_modules dobj) = Some g) as Hdisc.
    { intros d g. rewrite Hdeq. destruct (is_domain_reachable m d); [|done].
      destruct (alist_get d (_modules dobj)); [|done]. by intros [= ->]. }
    split; [intros d1 d2 g ?%Hgen ?%Hgen; by eapply Hinj|].
    split; [intros d1 d2 g ?%Hdisc ?%Hdisc; by eapply Hdinj|].
    split.
    + intros d1 d2 g1 g2 Hg1 Hg2%Hdisc ->.
      specialize (Hbelow _ _ Hg1). specialize (Hdrange _ _ Hg2). lia.
    + intros d g [Hg|Hg]; apply Hnew.
      * specialize (Hrange _ _ (Hgen _ _ Hg)). lia.
      * specialize (Hdrange _ _ (Hdisc _ _ Hg)). lia.
  - destruct Hdl as [_ Hdeq].
    assert (∀ d g, _get_target_discriminator m d w = Ok g → False) as Hdisc.
    { intros d g. rewrite Hdeq. by destruct (is_domain_reachable m d). }
    split; [intros d1 d2 g ?%Hgen ?%Hgen; by eapply Hinj|].
    split; [intros d1 d2 g ?%Hdisc; done|].
    split; [intros d1 d2 g1 g2 _ ?%Hdisc; done|].
    intros d g [Hg|Hg%Hdisc]; [|done]. apply Hnew.
    specialize (Hrange _ _ (Hgen _ _ Hg)). lia.
Qed.

Lemma built_fields :
  m = {| self_id := length (heap w0);
         class_name := cls;
         _default_domain := default_domain;
         _reachable_domains := reachable_domains;
         _related_domains := related_domains;
         BaseTranslationModel.discriminator_steps := discriminator_steps;
         BaseTranslationModel.disc_init_steps := disc_init_steps;
         BaseTranslationModel.real_img_key := real_img_key;
         _gen_cfg := generator;
         _disc_cfg := discriminator;
         BaseTranslationModel.loss_config := default empty_dict loss_config |}.
Proof.
  destruct (construct_full cls generator discriminator default_domain
              reachable_domains related_domains data_preprocessor
              discriminator_steps disc_init_steps real_img_key loss_config w0)
    as [_ Hlay].
  by destruct (Hlay m w Hbuilt) as [-> _].
Qed.

(** X8. The construction only adds to the store: the model is a new
    object, the objects and the tracking maps that were there are as they
    were, the data preprocessor is a child of the model, and the plain
    attributes of the model are the arguments (the loss configuration an
    empty dictionary when none is given). *)
Theorem construction_frame :
  self_id m = length (heap w0) ∧
  heap w0 !! self_id m = None ∧
  (∀ o obj, heap w0 !! o = Some obj → heap w !! o = Some obj) ∧
  maps w = maps w0 ∧
  getattr_module (self_id m) "data_preprocessor" w = Ok data_preprocessor ∧
  m = {| self_id := length (heap w0);
         class_name := cls;
         _default_domain := default_domain;
         _reachable_domains := reachable_domains;
         _related_domains := related_domains;
         BaseTranslationModel.discriminator_steps := discriminator_steps;
         BaseTranslationModel.disc_init_steps := disc_init_steps;
         BaseTranslationModel.real_img_key := real_img_key;
         _gen_cfg := generator;
         _disc_cfg := discriminator;
         BaseTranslationModel.loss_config := default empty_dict loss_config |}.
Proof.
  destruct built_layout
    as (Hselfid & Hmaps & Hold & sobj & gens & mid & Hself & Hdp & _).
  split; [done|]. split; [rewrite Hselfid; by apply lookup_ge_None|].
  split; [done|]. split; [done|]. split.
  - unfold getattr_module, get_obj. rewrite Hself. simpl. by rewrite Hdp.
  - apply built_fields.
Qed.

Lemma elem_of_get_other_domains (d x : string) :
  x ∈ get_other_domains m d ↔ x ∈ _related_domains m ∧ x ≠ d.
Proof.
  unfold get_other_domains.
  rewrite elem_of_elements, elem_of_difference.
  by rewrite !elem_of_list_to_set, list_elem_of_singleton.
Qed.

(** X10. On a constructed model the other domains of a domain [d] contain
    every reachable domain but [d]; in particular a reachable domain is
    among the other domains of every other reachable domain and never among
    its own. *)
Theorem other_domains_of_constructed (d : string) :
  (∀ d', d' ∈ reachable_domains → d' ≠ d → d' ∈ get_other_domains m d) ∧
  (d ∉ get_other_domains m d) ∧
  (∀ d', d' ∈ get_other_domains m d → d' ∈ related_domains).
Proof.
  assert (_related_domains m = related_domains) as Hrel
    by by rewrite built_fields.
  split; [|split].
  - intros d' Hd' Hne. apply elem_of_get_other_domains.
    rewrite Hrel. split; [|done]. by apply built_subset.
  - by intros [_ ?]%elem_of_get_other_domains.
  - intros d' [? _]%elem_of_get_other_domains. by rewrite <-Hrel.
Qed.

End Constructed.

Section Lookup_more.
Import BaseTranslationModel.
Context {F : Framework} {C : Collaborators}.

(** X9. The construction returns exactly when the default domain is
    reachable, the reachable domains are related domains, the registry
    builds the generator (and the discriminator, if one is given), and the
    containers take every reachable domain as a name. *)
Theorem construction_succeeds_iff (cls : string) (generator : Cfg)
    (discriminator : option Cfg) (default_domain : string)
    (reachable_domains related_domains : list string) (data_preprocessor : oid)
    (discriminator_steps disc_init_steps : Z) (real_img_key : string)
    (loss_config : option Cfg) (w : World) :
  is_ok (construct cls generator discriminator default_domain reachable_domains
           related_domains data_preprocessor discriminator_steps
           disc_init_steps real_img_key loss_config w)
    = bool_decide (default_domain ∈ reachable_domains)
      && bool_decide ((list_to_set reachable_domains : gset string)
                        ⊆ list_to_set related_domains)
      && is_ok (MODELS_build generator)
      && forallb module_name_ok reachable_domains
      && match discriminator with
         | Some disc_cfg => is_ok (MODELS_build disc_cfg)
         | None => true
         end.
Proof.
  apply (construct_full cls generator discriminator default_domain
           reachable_domains related_domains data_preprocessor
           discriminator_steps disc_init_steps real_img_key loss_config w).
Qed.

(** X11. Wrapped or not, [init_weights] initialises for a domain the module
    that [translation] uses for it: for a reachable domain the generator
    lookup is the module that the loop of [init_weights] picks, and when
    the collection is inside a model wrapper both are what the wrapped
    collection has under the domain. *)
Theorem lookup_agrees_with_init (m : Model) (w : World) (d : string)
    (generators : oid) (gobj : ModuleObj) :
  is_domain_reachable m d = true →
  getattr_module (self_id m) "generators" w = Ok generators →
  heap w !! generators = Some gobj →
  _get_target_generator m d w = domain_module generators d w ∧
  (is_wrapper gobj = true →
     ∀ inner, alist_get "module" (_modules gobj) = Some inner →
       _get_target_generator m d w = ModuleDict_getitem inner d w) ∧
  (is_wrapper gobj = false →
     _get_target_generator m d w = ModuleDict_getitem generators d w).
Proof.
  intros Hd Hattr Hgobj.
  assert (_get_target_generator m d w = domain_module generators d w) as Heq.
  { unfold _get_target_generator, domain_module, py_assert.
    rewrite Hd. simpl. rewrite Hattr. simpl.
    unfold get_obj. rewrite Hgobj. simpl.
    destruct (is_wrapper gobj); [|done].
    by destruct (getattr_module generators "module" w). }
  split; [done|]. rewrite Heq. unfold domain_module, get_obj.
  rewrite Hgobj. simpl. split.
  - intros -> inner Hinner. unfold getattr_module, get_obj.
    rewrite Hgobj. simpl. by rewrite Hinner.
  - by intros ->.
Qed.

End Lookup_more.

Section Tracking_more.
Import BaseTranslationModel.
Context {F : Framework} {C : Collaborators}.

(** The provenance note of [init_weights]. *)
Definition init_note (m : Model) : string :=
  "The value is the same before and after calling `init_weights` of "
    +:+ class_name m +:+ " ".

(** The entry of a parameter in the tracking map has the note and a mean
    taken on a store with the module objects of [w]. *)
Definition tracked_entry (m : Model) (w : World) (param : nat)
    (entry : gmap string InfoVal) : Prop :=
  entry !! "init_info" = Some (InfoStr (init_note m)) ∧
  ∃ w', heap w' = heap w ∧
        entry !! "tmp_mean_value" = Some (InfoMean (param_mean param w')).

Lemma getattr_info_heap (o : oid) (w w' : World) :
  heap w' = heap w → getattr_info o w' = getattr_info o w.
Proof. unfold getattr_info, get_obj. by intros ->. Qed.

(** One round of the loop over the parameters, on a store whose last
    tracking map is the one of the model. *)
Lemma record_param_step (m : Model) (n : string) (p : nat) (w : World)
    (pre : list InfoMap) (tracked : InfoMap) :
  getattr_info (self_id m) w = Ok (length pre) →
  maps w = pre ++ [tracked] →
  ∃ entry,
    record_param m (n, p) w
      = Ok {| heap := heap w; maps := pre ++ [<[p := entry]> tracked] |} ∧
    tracked_entry m w p entry.
Proof.
  intros Hinfo Hmaps. unfold record_param. rewrite Hinfo. simpl.
  eexists. split.
  - rewrite Hmaps. replace (length pre) with (length pre + 0) by lia.
    by rewrite alter_app_r.
  - split; [by simplify_map_eq|]. exists w. split; [done|]. by simplify_map_eq.
Qed.

(** The loop over the parameters. *)
Lemma record_loop (m : Model) (ps : list (string * nat)) (w : World)
    (pre : list InfoMap) (tracked : InfoMap) :
  getattr_info (self_id m) w = Ok (length pre) →
  maps w = pre ++ [tracked] →
  ∃ w' tracked',
    for_each (record_param m) ps w = Ok w' ∧
    heap w' = heap w ∧
    maps w' = pre ++ [tracked'] ∧
    (∀ p, p ∉ ps.*2 → tracked' !! p = tracked !! p) ∧
    (∀ p, p ∈ ps.*2 →
       ∃ entry, tracked' !! p = Some entry ∧ tracked_entry m w p entry).
Proof.
  revert w tracked. induction ps as [|[n p] ps IH]; intros w tracked Hinfo Hmaps.
  { exists w, tracked. simpl. split; [done|]. split; [done|]. split; [done|].
    split; [done|]. intros p Hp. by apply elem_of_nil in Hp. }
  destruct (record_param_step m n p w pre tracked Hinfo Hmaps)
    as (entry & Hstep & Hentry).
  cbn [for_each]. rewrite Hstep. simpl.
  set (w1 := {| heap := heap w; maps := _ |}).
  destruct (IH w1 (<[p := entry]> tracked)) as (w' & tracked' & Hloop & Hheap
                                                 & Hmaps' & Hout & Hin).
  { by rewrite (getattr_info_heap _ w w1). }
  { done. }
  exists w', tracked'. split; [done|]. split; [done|]. split; [done|].
  split.
  - intros p' Hp'. simpl in Hp'.
    apply not_elem_of_cons in Hp' as [Hne Hp'].
    rewrite (Hout p' Hp'). unfold InfoMap in *. by rewrite lookup_insert_ne.
  - intros p' Hp'. simpl in Hp'.
    destruct (decide (p' ∈ ps.*2)) as [Hps|Hps].
    + destruct (Hin p' Hps) as (e & He & Hnote & w2 & Hw2 & Hmean).
      exists e. split; [done|]. split; [done|]. exists w2. by split.
    + apply elem_of_cons in Hp' as [->|?]; [|done]. simpl.
      exists entry. split; [|done].
      rewrite (Hout p Hps). unfold InfoMap in *. by rewrite lookup_insert_eq.
Qed.

(** X12. The first part of [init_weights]: once the new tracking map is
    attached to the model, the loop over the parameters does not raise and
    leaves the module objects and the older tracking maps as they are; the
    new map then has an entry exactly for the parameters of the loop, each
    with the note that names the class of the model and with a mean. *)
Theorem tracking_map_filled (m : Model) (ps : list (string * nat))
    (w w1 : World) :
  new_tracking_map (self_id m) w = Ok w1 →
  ∃ w2 tracked,
    for_each (record_param m) ps w1 = Ok w2 ∧
    heap w2 = heap w1 ∧
    getattr_info (self_id m) w2 = Ok (length (maps w)) ∧
    maps w2 = maps w ++ [tracked] ∧
    (∀ p, is_Some (tracked !! p) ↔ p ∈ ps.*2) ∧
    (∀ p entry, tracked !! p = Some entry → tracked_entry m w1 p entry).
Proof.
  intros Hnew. unfold new_tracking_map, setattr_info in Hnew.
  apply update_obj_ok in Hnew as ([obj Hobj] & Hheap & Hmaps).
  simpl in Hobj, Hheap, Hmaps.
  assert (getattr_info (self_id m) w1 = Ok (length (maps w))) as Hinfo.
  { unfold getattr_info, get_obj. rewrite Hheap, list_lookup_alter_eq, Hobj.
    done. }
  destruct (record_loop m ps w1 (maps w) ∅ Hinfo Hmaps)
    as (w2 & tracked & Hloop & Hheap2 & Hmaps2 & Hout & Hin).
  exists w2, tracked. split; [done|]. split; [done|].
  split; [by rewrite (getattr_info_heap _ w1 w2)|]. split; [done|].
  assert (∀ p, is_Some (tracked !! p) → p ∈ ps.*2) as Honly.
  { intros p [e He]. destruct (decide (p ∈ ps.*2)) as [|Hp]; [done|].
    by rewrite (Hout p Hp) in He. }
  split.
  - intros p. split; [apply Honly|].
    intros Hp. destruct (Hin p Hp) as (e & He & _). by exists e.
  - intros p entry Hentry.
    destruct (Hin p (Honly p ltac:(by eexists))) as (e & He & Htracked).
    rewrite He in Hentry. by injection Hentry as <-.
Qed.

End Tracking_more.

(** ** The further theorems on the small instance *)

Section More_witnesses.
Import BaseTranslationModel.
Import BaseTranslationModel.Toy.

Lemma toy_constructed :
  construct "Pix2Pix" 7 (Some 8) "photo" ["photo"; "sketch"]
    ["photo"; "sketch"; "mask"] 0 1 0 "real_img" None toy_world
    = Ok (toy_model, toy_built).
Proof. vm_compute. reflexivity. Qed.

(** The small model without discriminators, and the store after its
    construction. *)
Definition toy_model_plain : Model := {|
  self_id := 1;
  class_name := "Pix2Pix";
  _default_domain := "photo";
  _reachable_domains := ["photo"; "sketch"];
  _related_domains := ["photo"; "sketch"; "mask"];
  discriminator_steps := 1;
  disc_init_steps := 0;
  real_img_key := "real_img";
  _gen_cfg := 7;
  _disc_cfg := None;
  loss_config := 0
|}.

Definition toy_built_plain : World :=
  Eval vm_compute in
    match construct "Pix2Pix" 7 None "photo" ["photo"; "sketch"]
            ["photo"; "sketch"; "mask"] 0 1 0 "real_img" None toy_world with
    | Ok (_, w) => w
    | Raise _ => toy_world
    end.

Lemma toy_constructed_plain :
  construct "Pix2Pix" 7 None "photo" ["photo"; "sketch"]
    ["photo"; "sketch"; "mask"] 0 1 0 "real_img" None toy_world
    = Ok (toy_model_plain, toy_built_plain).
Proof. vm_compute. reflexivity. Qed.

(** Witness of X5: [sketch] is reachable, [mask] is not. *)
Lemma generator_for_each_domain_witness :
  is_ok (_get_target_generator toy_model "sketch" toy_built) = true ∧
  is_ok (_get_target_generator toy_model "mask" toy_built) = false.
Proof.
  destruct (generator_for_each_domain (C:=toy_collaborators) _ _ _ _ _ _ _ _ _
              _ _ _ _ _ toy_constructed) as [Hok _].
  by rewrite !Hok.
Defined.

(** Witness of X6: without discriminators the lookup for the reachable
    domain [photo] raises the [TypeError]. *)
Lemma discriminator_for_each_domain_witness :
  _get_target_discriminator toy_model_plain "photo" toy_built_plain
    = Raise (TypeError "'NoneType' object is not subscriptable") ∧
  is_ok (_get_target_discriminator toy_model "photo" toy_built) = true.
Proof.
  split.
  - apply (discriminator_for_each_domain (C:=toy_collaborators) _ _ _ _ _ _ _
             _ _ _ _ _ _ _ toy_constructed_plain "photo").
  - by rewrite (discriminator_for_each_domain (C:=toy_collaborators) _ _ _ _ _
                  _ _ _ _ _ _ _ _ _ toy_constructed "photo").
Defined.

(** Witness of X7: the generator and the discriminator of [photo]. *)
Lemma separate_instances_witness :
  _get_target_generator toy_model "photo" toy_built = Ok 3 ∧
  _get_target_discriminator toy_model "photo" toy_built = Ok 8 ∧
  3 ≠ 8.
Proof.
  split; [vm_compute; reflexivity|]. split; [vm_compute; reflexivity|].
  destruct (separate_instances (C:=toy_collaborators) _ _ _ _ _ _ _ _ _ _ _ _
              _ _ toy_constructed) as (_ & _ & Hsep & _).
  apply (Hsep "photo" "photo"); vm_compute; reflexivity.
Defined.

(** Witness of X8: the data preprocessor, object 0, is as it was. *)
Lemma construction_frame_witness :
  self_id toy_model = 1 ∧ heap toy_built !! 0 = Some new_module.
Proof.
  destruct (construction_frame (C:=toy_collaborators) _ _ _ _ _ _ _ _ _ _ _ _
              _ _ toy_constructed) as (Hself & _ & Hold & _).
  split; [exact Hself|]. by apply Hold.
Defined.

(** Witness of X10: [sketch] is another domain of [photo]. *)
Lemma other_domains_of_constructed_witness :
  "sketch" ∈ get_other_domains toy_model "photo".
Proof.
  apply (other_domains_of_constructed (C:=toy_collaborators) _ _ _ _ _ _ _ _ _
           _ _ _ _ _ toy_constructed "photo"); [|done].
  by repeat constructor.
Defined.

(** A model wrapper around the object 3. *)
Definition toy_wrapper : ModuleObj :=
  {| _params_init_info := None; _modules := [("module", 3)];
     is_wrapper := true; payload := 0 |}.

(** A store where the generators of the small model are inside a model
    wrapper: object 2 is the wrapper, object 3 the collection. *)
Definition toy_wrapped : World := {|
  heap := [
    new_module;
    {| _params_init_info := None; _modules := [("generators", 2)];
       is_wrapper := false; payload := 0 |};
    toy_wrapper;
    {| _params_init_info := None; _modules := [("photo", 4)];
       is_wrapper := false; payload := 0 |};
    new_module ];
  maps := []
|}.

(** Witness of X11: the lookup goes through the wrapper. *)
Lemma lookup_agrees_with_init_witness :
  _get_target_generator toy_model "photo" toy_wrapped = Ok 4.
Proof.
  destruct (lookup_agrees_with_init (F:=toy_framework) toy_model toy_wrapped
              "photo" 2 toy_wrapper)
    as (_ & Hwrapped & _); [vm_compute; reflexivity ..|].
  by rewrite (Hwrapped eq_refl 3 eq_refl).
Defined.

(** The store after the new tracking map is attached to the small model. *)
Definition toy_tracking : World :=
  Eval vm_compute in
    match new_tracking_map 1 toy_built with
    | Ok w => w
    | Raise _ => toy_world
    end.

(** Witness of X12: the parameter 0 gets an entry. *)
Lemma tracking_map_filled_witness :
  ∃ w2 tracked,
    for_each (record_param toy_model) [("weight", 0)] toy_tracking = Ok w2 ∧
    maps w2 = [tracked] ∧
    is_Some (tracked !! 0).
Proof.
  destruct (tracking_map_filled (C:=toy_collaborators) toy_model
              [("weight", 0)] toy_built toy_tracking)
    as (w2 & tracked & Hloop & _ & _ & Hmaps & Hkeys & _);
    [vm_compute; reflexivity|].
  exists w2, tracked. split; [exact Hloop|]. split; [exact Hmaps|].
  apply Hkeys. by left.
Defined.

End More_witnesses.
